(** * SOFIA recipes: FORCAST basic photometry and EXES velocity shift

    A shallow embedding of the two executable notebooks of the repository,
    [FORCAST-Basic_Photometry] and [EXES: Velocity Calculation], and the
    properties of their arithmetic.

    Conventions of the embedding.
    - A finite [float64] (or Python [float]/[int]) value is a real number:
      rounding and overflow are not modelled.
    - numpy arithmetic never raises; what it returns in place of a finite
      number ([inf], [-inf], [nan]) is the single value [NonFin].
    - Python arithmetic on Python numbers raises: [ZeroDivisionError],
      [TypeError], [KeyError] ... are the [Raise] outcomes.
    - The notebook's kernel is threaded explicitly: the opened FITS file,
      the files on disk and the text printed so far. *)

From Stdlib Require Import Floats.PrimFloat.
From Stdlib Require Import Reals Lra Psatz List String ZArith Bool.
Import ListNotations.
Open Scope string_scope.
Open Scope R_scope.

(** ** Outcomes of evaluating Python code *)

Inductive exn : Type :=
| NameError (name : string)
| KeyError (key : string)
| IndexError
| TypeError
| ValueError
| ZeroDivisionError
| OSError
| FileNotFoundError (name : string).

Inductive result (A : Type) : Type :=
| Ok (a : A)
| Raise (e : exn).

Arguments Ok {A} a.
Arguments Raise {A} e.

Definition rbind {A B : Type} (m : result A) (f : A -> result B) : result B :=
  match m with
  | Ok a => f a
  | Raise e => Raise e
  end.

Declare Scope result_scope.
Delimit Scope result_scope with result.
Notation "x <- m ;; k" := (rbind m (fun x => k))
  (at level 61, m at next level, right associativity) : result_scope.

(** ** numpy scalars *)

Inductive float64 : Type :=
| Fin (x : R)
| NonFin.

(** [np.pi] *)
Definition np_pi : R := PI.

Definition np_add (a b : float64) : float64 :=
  match a, b with
  | Fin x, Fin y => Fin (x + y)
  | _, _ => NonFin
  end.

Definition np_sub (a b : float64) : float64 :=
  match a, b with
  | Fin x, Fin y => Fin (x - y)
  | _, _ => NonFin
  end.

Definition np_mul (a b : float64) : float64 :=
  match a, b with
  | Fin x, Fin y => Fin (x * y)
  | _, _ => NonFin
  end.

(** [a / d] for a numpy scalar [a] and a finite divisor [d]: a zero divisor
    gives [inf] or [nan] and a warning, never an exception. *)
Definition np_div (a : float64) (d : R) : float64 :=
  match a with
  | Fin x => if Req_dec_T d 0 then NonFin else Fin (x / d)
  | NonFin => NonFin
  end.

(** [a ** n] for a literal exponent [n >= 1]. *)
Definition np_pow (a : float64) (n : nat) : float64 :=
  match a with
  | Fin x => Fin (x ^ n)
  | NonFin => NonFin
  end.

(** [np.sqrt]: [nan] on a negative argument. *)
Definition np_sqrt (a : float64) : float64 :=
  match a with
  | Fin x => if Rle_dec 0 x then Fin (sqrt x) else NonFin
  | NonFin => NonFin
  end.

Definition Rsum (xs : list R) : R := fold_right Rplus 0 xs.

(** [np.std] of the flattened array: the population standard deviation
    [sqrt(mean(abs(x - x.mean())**2))]; [nan] on an empty array. *)
Definition np_std (xs : list R) : float64 :=
  match xs with
  | [] => NonFin
  | _ :: _ =>
      let n := INR (List.length xs) in
      let m := Rsum xs / n in
      Fin (sqrt (Rsum (map (fun x => (x - m) ^ 2) xs) / n))
  end.

(** ** FITS files as [astropy.io.fits] presents them *)

(** The value of a header card. *)
Inductive hval : Type :=
| HFloat (x : R)
| HInt (z : Z)
| HBool (b : bool)
| HStr (s : string).

(** A header is its list of cards, in file order; commentary keywords
    repeat. *)
Definition Header : Type := list (string * hval).

(** [hdr[key]]: the value of the first card under that keyword. *)
Fixpoint getitem (hdr : Header) (key : string) : result hval :=
  match hdr with
  | [] => Raise (KeyError key)
  | (k, v) :: cards => if String.eqb k key then Ok v else getitem cards key
  end.

(** The number a card value stands for in arithmetic ([bool] is an [int]);
    a string is not a number. *)
Definition number (v : hval) : option R :=
  match v with
  | HFloat x => Some x
  | HInt z => Some (IZR z)
  | HBool b => Some (if b then 1 else 0)
  | HStr _ => None
  end.

(** Python's [a / b] on two card values. *)
Definition py_truediv (a b : hval) : result R :=
  match number a, number b with
  | Some x, Some y => if Req_dec_T y 0 then Raise ZeroDivisionError else Ok (x / y)
  | _, _ => Raise TypeError
  end.

(** A two-dimensional image, [image[y][x]]. *)
Definition Image : Type := list (list R).

(** A header-data unit and the list [fits.open] returns. *)
Module fits.
Record HDU : Type := { header : Header; data : Image }.
Definition HDUList : Type := list HDU.
End fits.

(** [data[0]] *)
Definition hdu0 (hdul : fits.HDUList) : result fits.HDU :=
  match hdul with
  | [] => Raise IndexError
  | h :: _ => Ok h
  end.

(** ** [photutils.aperture]

    Positions are [(x, y)] in pixel coordinates.  Pixel [(x, y)] has its
    centre at the integer point [(x, y)] and covers the unit square around
    it. *)

(** A [CircularAperture] object: its radius is positive. *)
Record circular_aperture : Type := {
  ap_positions : R * R;
  ap_r : R;
  ap_valid : 0 < ap_r
}.

(** A [CircularAnnulus] object: [0 < r_in < r_out]. *)
Record circular_annulus : Type := {
  an_positions : R * R;
  an_r_in : R;
  an_r_out : R;
  an_valid : 0 < an_r_in < an_r_out
}.

Inductive aperture : Type :=
| Circle (a : circular_aperture)
| Annulus (a : circular_annulus).

(** [CircularAperture(positions, r=r)]: [ValueError] unless [r > 0]. *)
Definition CircularAperture (positions : R * R) (r : R) : result circular_aperture :=
  match Rlt_dec 0 r with
  | left H => Ok {| ap_positions := positions; ap_r := r; ap_valid := H |}
  | right _ => Raise ValueError
  end.

(** [CircularAnnulus(positions, r_in=r_in, r_out=r_out)]: [ValueError]
    unless [0 < r_in < r_out]. *)
Definition CircularAnnulus (positions : R * R) (r_in r_out : R) : result circular_annulus :=
  match Rlt_dec 0 r_in, Rlt_dec r_in r_out with
  | left H1, left H2 =>
      Ok {| an_positions := positions; an_r_in := r_in; an_r_out := r_out;
            an_valid := conj H1 H2 |}
  | _, _ => Raise ValueError
  end.

(** The [area] property. *)
Definition area (a : aperture) : R :=
  match a with
  | Circle c => np_pi * ap_r c ^ 2
  | Annulus n => np_pi * (an_r_out n ^ 2 - an_r_in n ^ 2)
  end.

(** The whole of pixel [(x, y)] lies in the closed disc of centre [c] and
    radius [r]: its farthest corner does. *)
Definition pixel_within (c : R * R) (r : R) (x y : nat) : Prop :=
  (Rabs (INR x - fst c) + / 2) ^ 2 + (Rabs (INR y - snd c) + / 2) ^ 2 <= r ^ 2.

(** Pixel [(x, y)] has no interior point in the disc: its nearest point is
    at distance [r] or more. *)
Definition pixel_beyond (c : R * R) (r : R) (x y : nat) : Prop :=
  r ^ 2 <= Rmax 0 (Rabs (INR x - fst c) - / 2) ^ 2
           + Rmax 0 (Rabs (INR y - snd c) - / 2) ^ 2.

(** What the notebook takes from photutils.
    - [exact c r x y] is the fraction of pixel [(x, y)] covered by the disc of
      centre [c] and radius [r], the weight of the default [method='exact']:
      a number from 0 to 1; a pixel wholly inside weighs 1, a pixel wholly
      outside weighs 0.
    - [center_multiply a image] is
      [a.to_mask(method="center").multiply(image)]: the cut-out of the image
      on the bounding box of the annulus, times the mask; [None] when the box
      misses the image. *)
Class Photutils : Type := {
  exact : R * R -> R -> nat -> nat -> R;
  exact_range : forall c r x y, 0 <= exact c r x y <= 1;
  exact_within : forall c r x y, pixel_within c r x y -> exact c r x y = 1;
  exact_beyond : forall c r x y, pixel_beyond c r x y -> exact c r x y = 0;
  center_multiply : circular_annulus -> Image -> option Image
}.

(** The weight of pixel [(x, y)] in an aperture sum; the mask of an annulus is
    the outer disc's minus the inner disc's. *)
Definition weight `{Photutils} (a : aperture) (x y : nat) : R :=
  match a with
  | Circle c => exact (ap_positions c) (ap_r c) x y
  | Annulus n =>
      exact (an_positions n) (an_r_out n) x y - exact (an_positions n) (an_r_in n) x y
  end.

(** Sum of [w x * row[x]] over a row whose first pixel is in column [x]. *)
Fixpoint sum_row (w : nat -> R) (x : nat) (row : list R) : R :=
  match row with
  | [] => 0
  | v :: row' => w x * v + sum_row w (S x) row'
  end.

(** Sum of [w x y * image[y][x]] over an image whose first row is row [y]. *)
Fixpoint sum_image (w : nat -> nat -> R) (y : nat) (image : Image) : R :=
  match image with
  | [] => 0
  | row :: image' => sum_row (fun x => w x y) 0 row + sum_image w (S y) image'
  end.

(** The bounding box of the disc of centre [c] and radius [r] runs from
    [floor(c - r + 0.5)] to [ceil(c + r + 0.5)], the latter excluded, in each
    direction.  It meets an array of [ny] rows and [nx] columns when it
    starts before the array ends and ends after the array starts. *)
Definition meets (c : R * R) (r : R) (image : Image) : Prop :=
  fst c - r + / 2 < INR (match image with [] => 0 | row :: _ => List.length row end)
  /\ 0 < fst c + r + / 2
  /\ snd c - r + / 2 < INR (List.length image)
  /\ 0 < snd c + r + / 2.

Definition meets_dec (c : R * R) (r : R) (image : Image)
  : {meets c r image} + {~ meets c r image}.
Proof.
  unfold meets.
  destruct (Rlt_dec (fst c - r + / 2)
              (INR (match image with [] => 0 | row :: _ => List.length row end)));
    [| right; tauto].
  destruct (Rlt_dec 0 (fst c + r + / 2)); [| right; tauto].
  destruct (Rlt_dec (snd c - r + / 2) (INR (List.length image))); [| right; tauto].
  destruct (Rlt_dec 0 (snd c + r + / 2)); [left; tauto | right; tauto].
Defined.

(** Centre and outer radius of an aperture: what its bounding box is made
    from. *)
Definition centre (a : aperture) : R * R :=
  match a with
  | Circle c => ap_positions c
  | Annulus n => an_positions n
  end.

Definition extent (a : aperture) : R :=
  match a with
  | Circle c => ap_r c
  | Annulus n => an_r_out n
  end.

(** The sum of an aperture over an array: each pixel by its weight; [nan]
    when the bounding box of the aperture misses the array. *)
Definition aperture_sum `{Photutils} (image : Image) (a : aperture) : float64 :=
  if meets_dec (centre a) (extent a) image
  then Fin (sum_image (weight a) 0 image)
  else NonFin.

(** [aperture_photometry(image, a)["aperture_sum"]]: a column with one row,
    for the one position of the aperture. *)
Definition aperture_photometry `{Photutils} (image : Image) (a : aperture)
  : list float64 :=
  [aperture_sum image a].

(** [column[0]] *)
Definition item0 {A : Type} (column : list A) : result A :=
  match column with
  | [] => Raise IndexError
  | v :: _ => Ok v
  end.

(** The header has a card [key] whose value is the number [x]. *)
Definition has_number (hdr : Header) (key : string) (x : R) : Prop :=
  exists v, getitem hdr key = Ok v /\ number v = Some x.

(** ** The photometry notebook: the computations of its cells *)

(** [def get_aperture_sum(data, pos_pix, r_pix)] *)
Definition get_aperture_sum `{Photutils} (data : fits.HDUList) (pos_pix : R * R) (r_pix : R)
  : result (list float64 * circular_aperture * R) :=
  (pix_aperture <- CircularAperture pos_pix r_pix ;;
   h <- hdu0 data ;;
   let sum_aperture := aperture_photometry h.(fits.data) (Circle pix_aperture) in
   let area := area (Circle pix_aperture) in
   Ok (sum_aperture, pix_aperture, area))%result.

(** [bkg_mean = bkg_results["aperture_sum"] / annulus_aperture.area] *)
Definition bkg_mean `{Photutils} (image : Image) (annulus_aperture : circular_annulus)
  : list float64 :=
  let bkg_results := aperture_photometry image (Annulus annulus_aperture) in
  map (fun s => np_div s (area (Annulus annulus_aperture))) bkg_results.

(** [flux_background_subtracted = sum_jy[0] - bkg_mean[0]] *)
Definition flux_background_subtracted (sum_jy bkg_mean : list float64)
  : result float64 :=
  (s <- item0 sum_jy ;;
   b <- item0 bkg_mean ;;
   Ok (np_sub s b))%result.

(** [annulus_std = np.std(annulus_mask.multiply(data[0].data))]; [np.std] of
    [None] is a [TypeError]. *)
Definition annulus_std `{Photutils} (image : Image) (annulus_aperture : circular_annulus)
  : result float64 :=
  match center_multiply annulus_aperture image with
  | Some annulus_data => Ok (np_std (List.concat annulus_data))
  | None => Raise TypeError
  end.

(** The relative uncertainty:
[[
sigma_m = np.sqrt(
    (
        2 * np.pi * (r_ap * annulus_std / flux_background_subtracted) ** 2
        + (hdr["ERRCALF"] / hdr["CALFCTR"]) ** 2
        + (0.05) **2
    )
)
]]
    The first term is numpy arithmetic, the second is Python arithmetic on
    two header values. *)
Definition sigma_m (r_ap : R) (annulus_std : float64) (flux_background_subtracted : R)
    (hdr : Header) : result float64 :=
  (let relative :=
     np_mul (Fin (2 * np_pi))
            (np_pow (np_div (np_mul (Fin r_ap) annulus_std) flux_background_subtracted) 2) in
   errcalf <- getitem hdr "ERRCALF" ;;
   calfctr <- getitem hdr "CALFCTR" ;;
   calibration <- py_truediv errcalf calfctr ;;
   Ok (np_sqrt (np_add (np_add relative (Fin (calibration ^ 2))) (Fin (0.05 ^ 2)))))%result.

(** [absolute_uncertainty = sigma_m*flux_background_subtracted] *)
Definition absolute_uncertainty (sigma_m : float64) (flux_background_subtracted : R)
  : float64 :=
  np_mul sigma_m (Fin flux_background_subtracted).

(** The two on the flux as the cells hold it.  The one flux the cells
    produce that is not finite is [nan], from an aperture off the array, and
    a [nan] flux does to both what a [nan] standard deviation does. *)
Definition sigma_m_np (r_ap : R) (annulus_std flux_background_subtracted : float64)
    (hdr : Header) : result float64 :=
  match flux_background_subtracted with
  | Fin flux => sigma_m r_ap annulus_std flux hdr
  | NonFin => sigma_m r_ap NonFin 1 hdr
  end.

Definition absolute_uncertainty_np (sigma_m flux_background_subtracted : float64)
  : float64 :=
  match flux_background_subtracted with
  | Fin flux => absolute_uncertainty sigma_m flux
  | NonFin => NonFin
  end.

(** ** The expression of [sigma_m] as syntax *)

Inductive name : Type :=
| r_ap_
| annulus_std_
| flux_background_subtracted_.

Inductive expr : Type :=
| Num (x : R)
| Pi
| Name (n : name)
| Subscript (key : string)
| Mult (a b : expr)
| Div (a b : expr)
| Add (a b : expr)
| Pow (a : expr) (n : nat)
| Sqrt (a : expr).

Definition sigma_m_expr : expr :=
  Sqrt
    (Add
       (Add
          (Mult (Mult (Num 2) Pi)
                (Pow (Div (Mult (Name r_ap_) (Name annulus_std_))
                          (Name flux_background_subtracted_)) 2))
          (Pow (Div (Subscript "ERRCALF") (Subscript "CALFCTR")) 2))
       (Pow (Num 0.05) 2)).

(** How many of each operation an expression performs. *)
Record ops : Type := {
  mults : nat; divs : nat; adds : nat; pows : nat; sqrts : nat
}.

Definition no_ops : ops :=
  {| mults := 0; divs := 0; adds := 0; pows := 0; sqrts := 0 |}.

Definition ops_plus (a b : ops) : ops :=
  {| mults := mults a + mults b; divs := divs a + divs b; adds := adds a + adds b;
     pows := pows a + pows b; sqrts := sqrts a + sqrts b |}.

Fixpoint count (e : expr) : ops :=
  match e with
  | Num _ | Pi | Name _ | Subscript _ => no_ops
  | Mult a b =>
      ops_plus {| mults := 1; divs := 0; adds := 0; pows := 0; sqrts := 0 |}
               (ops_plus (count a) (count b))
  | Div a b =>
      ops_plus {| mults := 0; divs := 1; adds := 0; pows := 0; sqrts := 0 |}
               (ops_plus (count a) (count b))
  | Add a b =>
      ops_plus {| mults := 0; divs := 0; adds := 1; pows := 0; sqrts := 0 |}
               (ops_plus (count a) (count b))
  | Pow a _ =>
      ops_plus {| mults := 0; divs := 0; adds := 0; pows := 1; sqrts := 0 |} (count a)
  | Sqrt a =>
      ops_plus {| mults := 0; divs := 0; adds := 0; pows := 0; sqrts := 1 |} (count a)
  end.

(** The value of an expression over the reals; [None] where a divisor is
    zero, a square root is taken of a negative number, or a header entry is
    not a number. *)
Fixpoint eval (names : name -> R) (hdr : Header) (e : expr) : option R :=
  match e with
  | Num x => Some x
  | Pi => Some np_pi
  | Name n => Some (names n)
  | Subscript key =>
      match getitem hdr key with
      | Ok v => number v
      | Raise _ => None
      end
  | Mult a b =>
      match eval names hdr a, eval names hdr b with
      | Some x, Some y => Some (x * y)
      | _, _ => None
      end
  | Div a b =>
      match eval names hdr a, eval names hdr b with
      | Some x, Some y => if Req_dec_T y 0 then None else Some (x / y)
      | _, _ => None
      end
  | Add a b =>
      match eval names hdr a, eval names hdr b with
      | Some x, Some y => Some (x + y)
      | _, _ => None
      end
  | Pow a n =>
      match eval names hdr a with
      | Some x => Some (x ^ n)
      | None => None
      end
  | Sqrt a =>
      match eval names hdr a with
      | Some x => if Rle_dec 0 x then Some (sqrt x) else None
      | None => None
      end
  end.

(** The variables of the notebook as an environment. *)
Definition names_of (r_ap annulus_std flux_background_subtracted : R) (n : name) : R :=
  match n with
  | r_ap_ => r_ap
  | annulus_std_ => annulus_std
  | flux_background_subtracted_ => flux_background_subtracted
  end.

(** The formula of the FORCAST handbook:
    eta^2 = 2 pi (r sigma_B / F_0)^2 + (ERRCALF / CALFCTR)^2 + 0.05^2. *)
Definition eta (r sigma_B F0 ERRCALF CALFCTR : R) : R :=
  sqrt (2 * PI * (r * sigma_B / F0) ^ 2 + (ERRCALF / CALFCTR) ^ 2 + 0.05 ^ 2).

(** ** The kernel the cells run in *)

Record Kernel : Type := {
  (** the FITS files on disk, by path *)
  disk : list (string * fits.HDUList);
  (** the object behind the names [data] and [hdr], once a file is opened *)
  opened : option fits.HDUList;
  (** what the cells have printed: each text with the numbers formatted in it *)
  stdout : list (string * list float64)
}.

(** A cell: it may print and rebind names, and it ends normally or with an
    exception; the kernel survives either way. *)
Definition Cell (A : Type) : Type := Kernel -> Kernel * result A.

Definition ret {A : Type} (a : A) : Cell A := fun k => (k, Ok a).

Definition bind {A B : Type} (m : Cell A) (f : A -> Cell B) : Cell B :=
  fun k =>
    match m k with
    | (k', Ok a) => f a k'
    | (k', Raise e) => (k', Raise e)
    end.

Declare Scope cell_scope.
Delimit Scope cell_scope with cell.
Notation "x <- m ;; k" := (bind m (fun x => k))
  (at level 61, m at next level, right associativity) : cell_scope.

(** A computation that does not touch the kernel. *)
Definition lift {A : Type} (r : result A) : Cell A := fun k => (k, r).

(** [print(text + "{:.6f}".format(v) + ...)] *)
Definition print (text : string) (vs : list float64) : Cell unit :=
  fun k =>
    ({| disk := disk k; opened := opened k; stdout := stdout k ++ [(text, vs)] |}, Ok tt).

Fixpoint lookup_file (files : list (string * fits.HDUList)) (path : string)
  : result fits.HDUList :=
  match files with
  | [] => Raise (FileNotFoundError path)
  | (p, hdul) :: files' => if String.eqb p path then Ok hdul else lookup_file files' path
  end.

(** [data = fits.open(filename)]: a file that is not there is a
    [FileNotFoundError], a file without a header-data unit an [OSError], and
    neither binds the name. *)
Definition fits_open (filename : string) : Cell unit :=
  fun k =>
    match lookup_file (disk k) filename with
    | Ok [] => (k, Raise OSError)
    | Ok hdul => ({| disk := disk k; opened := Some hdul; stdout := stdout k |}, Ok tt)
    | Raise e => (k, Raise e)
    end.

(** Reading the name [data]. *)
Definition name_data : Cell fits.HDUList :=
  fun k =>
    match opened k with
    | Some hdul => (k, Ok hdul)
    | None => (k, Raise (NameError "data"))
    end.

(** Reading the name [hdr], bound by [hdr = data[0].header] to the header
    object of the first unit. *)
Definition name_hdr : Cell Header :=
  fun k =>
    match opened k with
    | Some (h :: _) => (k, Ok h.(fits.header))
    | _ => (k, Raise (NameError "hdr"))
    end.

(** The cell "Load the data": [fits.open], then [hdr = data[0].header]. *)
Definition load (filename : string) : Cell unit :=
  (_ <- fits_open filename ;;
   data <- name_data ;;
   _ <- lift (hdu0 data) ;;
   ret tt)%cell.

(** The cell "USER OPTIONS", with the pixel position that the world
    coordinate system gives for [target_ra], [target_dec]. *)
Record Options : Type := {
  r_ap : R;
  background_aperture_inner_radius : R;
  background_aperture_outter_radius : R;
  pos_pix : R * R
}.

(** What the notebook ends with. *)
Record Report : Type := {
  final_flux : float64;
  relative : float64;
  absolute : float64
}.

(** [bkg_results = aperture_photometry(data[0].data, annulus_aperture)] and
    the rest of the cell "Calculate and subtract background flux". *)
Definition subtract_background `{Photutils} (sum_jy : list float64)
    (annulus_aperture : circular_annulus) : Cell float64 :=
  (data <- name_data ;;
   h <- lift (hdu0 data) ;;
   let bkg_mean := bkg_mean h.(fits.data) annulus_aperture in
   flux <- lift (flux_background_subtracted sum_jy bkg_mean) ;;
   b <- lift (item0 bkg_mean) ;;
   _ <- print "Flux removed: " [b] ;;
   _ <- print "background_substracted flux: " [flux] ;;
   ret flux)%cell.

(** The cells "Get aperture radius sum", "Define background annulus" and
    "Calculate and subtract background flux", in notebook order.  Plotting
    is left out, and so is the conversion of the target coordinates: the
    cells start from [pos_pix]. *)
Definition measure_flux `{Photutils} (o : Options)
  : Cell (float64 * circular_annulus) :=
  (data <- name_data ;;
   got <- lift (get_aperture_sum data (pos_pix o) (r_ap o)) ;;
   let '(sum_jy, pix_aperture, area) := got in
   annulus_aperture <-
     lift (CircularAnnulus (pos_pix o) (background_aperture_inner_radius o)
                           (background_aperture_outter_radius o)) ;;
   flux <- subtract_background sum_jy annulus_aperture ;;
   ret (flux, annulus_aperture))%cell.

(** The cells "Calculate relative uncertainty" and "Calculate final flux +
    absolute uncertainty". *)
Definition estimate_uncertainty `{Photutils} (o : Options) (flux : float64)
    (annulus_aperture : circular_annulus) : Cell Report :=
  (data <- name_data ;;
   h <- lift (hdu0 data) ;;
   std <- lift (annulus_std h.(fits.data) annulus_aperture) ;;
   hdr <- name_hdr ;;
   sigma <- lift (sigma_m_np (r_ap o) std flux hdr) ;;
   _ <- print "relative uncertainty: " [np_mul sigma (Fin 100)] ;;
   let uncertainty := absolute_uncertainty_np sigma flux in
   _ <- print "Final 5.6um flux w/ uncertainty: " [flux; uncertainty] ;;
   ret {| final_flux := flux; relative := sigma; absolute := uncertainty |})%cell.

Definition photometry `{Photutils} (o : Options) : Cell Report :=
  (measured <- measure_flux o ;;
   estimate_uncertainty o (fst measured) (snd measured))%cell.

(** The notebook, run from top to bottom. *)
Definition notebook `{Photutils} (filename : string) (o : Options) : Cell Report :=
  (_ <- load filename ;; photometry o)%cell.

(** ** The velocity notebook *)

Module velocity.

(** The two units of speed the notebook meets. *)
Inductive speed_unit : Type := km_s | m_s.

(** Metres per second in one unit. *)
Definition scale (u : speed_unit) : R :=
  match u with
  | km_s => 1000
  | m_s => 1
  end.

(** An [astropy.units.Quantity] of speed. *)
Record Quantity : Type := { value : R; unit : speed_unit }.

(** [q.to(u)] *)
Definition to (q : Quantity) (u : speed_unit) : Quantity :=
  {| value := value q * scale (unit q) / scale u; unit := u |}.

(** [a - b]: in the unit of [a]. *)
Definition sub (a b : Quantity) : Quantity :=
  {| value := value a - value (to b (unit a)); unit := unit a |}.

(** [vgeo = coords.radial_velocity_correction(kind="heliocentric", ...)
           .to(u.km / u.s)], given what astropy returns for the call. *)
Definition vgeo (radial_velocity_correction : Quantity) : Quantity :=
  to radial_velocity_correction km_s.

(** [v_corrected = v_sys - vgeo] *)
Definition v_corrected (v_sys radial_velocity_correction : Quantity) : Quantity :=
  sub v_sys (vgeo radial_velocity_correction).

(** The expected shift in the words of the specification, in km/s: the
    systemic velocity, less the heliocentric correction, with the wind or
    expansion velocity included. *)
Definition spec_expected_shift (v_sys v_helio v_wind : R) : R :=
  v_sys - v_helio + v_wind.

End velocity.

(** ** Sums over the pixels of an array, stated pixel by pixel *)

(** [image[y][x]] *)
Definition pixel_value (image : Image) (x y : nat) : R :=
  nth x (nth y image []) 0.

(** The sum over every pixel [(x, y)] of the array of [w x y] times the
    value of the pixel. *)
Definition total (w : nat -> nat -> R) (image : Image) : R :=
  Rsum (map (fun y =>
               Rsum (map (fun x => w x y * pixel_value image x y)
                         (seq 0 (List.length (nth y image [])))))
            (seq 0 (List.length image))).

(** 1 for a pixel wholly within the disc, 0 for any other. *)
Definition whole_pixel (c : R * R) (r : R) (x y : nat) : R :=
  if Rle_dec ((Rabs (INR x - fst c) + / 2) ^ 2 + (Rabs (INR y - snd c) + / 2) ^ 2) (r ^ 2)
  then 1 else 0.

(** 0 for a pixel wholly outside the disc, 1 for any other. *)
Definition touched_pixel (c : R * R) (r : R) (x y : nat) : R :=
  if Rle_dec (r ^ 2)
             (Rmax 0 (Rabs (INR x - fst c) - / 2) ^ 2
              + Rmax 0 (Rabs (INR y - snd c) - / 2) ^ 2)
  then 0 else 1.

(** No pixel of the array is negative. *)
Definition nonnegative (image : Image) : Prop :=
  forall row v, In row image -> In v row -> 0 <= v.

(** ** A model of the photutils interface, and a small run

    Weights by pixel centre satisfy what the notebook asks of the exact
    weights; they serve to run the notebook on a small image. *)

Definition centre_weight (c : R * R) (r : R) (x y : nat) : R :=
  if Rlt_dec ((INR x - fst c) ^ 2 + (INR y - snd c) ^ 2) (r ^ 2) then 1 else 0.

Fixpoint mask_row (w : nat -> R) (x : nat) (row : list R) : list R :=
  match row with
  | [] => []
  | v :: row' => w x * v :: mask_row w (S x) row'
  end.

Fixpoint mask_image (w : nat -> nat -> R) (y : nat) (image : Image) : Image :=
  match image with
  | [] => []
  | row :: image' => mask_row (fun x => w x y) 0 row :: mask_image w (S y) image'
  end.

Definition centre_multiply (a : circular_annulus) (image : Image) : option Image :=
  match image with
  | [] => None
  | _ :: _ =>
      Some (mask_image
              (fun x y => centre_weight (an_positions a) (an_r_out a) x y
                          - centre_weight (an_positions a) (an_r_in a) x y)
              0 image)
  end.

Definition pixel_centres : Photutils.
Proof.
  refine {| exact := centre_weight; center_multiply := centre_multiply;
            exact_range := _; exact_within := _; exact_beyond := _ |}.
  - intros c r x y; unfold centre_weight; destruct (Rlt_dec _ _); lra.
  - intros [cx cy] r x y; unfold pixel_within, centre_weight; cbn [fst snd]; intros Hin.
    destruct (Rlt_dec _ _) as [_ | Hn]; [reflexivity | exfalso; apply Hn].
    pose proof (Rabs_pos (INR x - cx)) as Hx.
    pose proof (Rabs_pos (INR y - cy)) as Hy.
    rewrite <- (pow2_abs (INR x - cx)), <- (pow2_abs (INR y - cy)).
    nra.
  - intros [cx cy] r x y; unfold pixel_beyond, centre_weight; cbn [fst snd]; intros Hout.
    destruct (Rlt_dec _ _) as [Hlt | _]; [exfalso | reflexivity].
    rewrite <- (pow2_abs (INR x - cx)), <- (pow2_abs (INR y - cy)) in Hlt.
    pose proof (Rabs_pos (INR x - cx)) as Hx.
    pose proof (Rabs_pos (INR y - cy)) as Hy.
    revert Hout; unfold Rmax.
    destruct (Rle_dec 0 (Rabs (INR x - cx) - / 2));
      destruct (Rle_dec 0 (Rabs (INR y - cy) - / 2)); nra.
Defined.

(** A one-pixel image of 1 Jy, with the two calibration cards. *)
Definition small_header : Header :=
  [("SIMPLE", HBool true); ("NAXIS", HInt 2);
   ("CALFCTR", HFloat 2); ("ERRCALF", HFloat 0)].

Definition small_file : fits.HDUList :=
  [{| fits.header := small_header; fits.data := [[1]] |}].

Definition small_options : Options :=
  {| r_ap := 1;
     background_aperture_inner_radius := 2;
     background_aperture_outter_radius := 3;
     pos_pix := (0, 0) |}.

Definition small_kernel : Kernel :=
  {| disk := [("small.fits", small_file)]; opened := Some small_file; stdout := [] |}.

(** ** What a cell leaves alone *)

(** The cell leaves a part of the kernel as it is, however it ends: [opened]
    for the opened file with every header and image array of it, [disk] for
    the files. *)
Definition keeps {X A : Type} (part : Kernel -> X) (m : Cell A) : Prop :=
  forall k, part (fst (m k)) = part k.

(** ** Printed lines *)

(** The two lines of the cell "Calculate and subtract background flux". *)
Definition flux_lines (removed flux : float64) : list (string * list float64) :=
  [("Flux removed: ", [removed]);
   ("background_substracted flux: ", [flux])].

(** The lines of the two uncertainty cells. *)
Definition uncertainty_lines (rep : Report) : list (string * list float64) :=
  [("relative uncertainty: ", [np_mul (relative rep) (Fin 100)]);
   ("Final 5.6um flux w/ uncertainty: ", [final_flux rep; absolute rep])].

(** The kernel with more printed. *)
Definition printed (k : Kernel) (lines : list (string * list float64)) : Kernel :=
  {| disk := disk k; opened := opened k; stdout := (stdout k ++ lines)%list |}.

(** A source of 10 Jy on a 3 x 3 array, its four neighbours at 2 Jy and the
    corners at 1 Jy; an aperture about the source and an annulus through
    the neighbours. *)
Definition cross_image : Image := [[1; 2; 1]; [2; 10; 2]; [1; 2; 1]].

Definition cross_file : fits.HDUList :=
  [{| fits.header := small_header; fits.data := cross_image |}].

Definition cross_kernel : Kernel :=
  {| disk := [("cross.fits", cross_file)]; opened := Some cross_file; stdout := [] |}.

Definition cross_options : Options :=
  {| r_ap := 0.6;
     background_aperture_inner_radius := 0.8;
     background_aperture_outter_radius := 1.2;
     pos_pix := (1, 1) |}.

(** The same apertures about a position far off the array. *)
Definition stray_options : Options :=
  {| r_ap := 0.6;
     background_aperture_inner_radius := 0.8;
     background_aperture_outter_radius := 1.2;
     pos_pix := (10, 10) |}.

(** The small file without its calibration cards. *)
Definition bare_file : fits.HDUList :=
  [{| fits.header := [("SIMPLE", HBool true); ("NAXIS", HInt 2)];
      fits.data := [[1]] |}].

Definition bare_kernel : Kernel :=
  {| disk := [("bare.fits", bare_file)]; opened := Some bare_file; stdout := [] |}.

(** A one-pixel image without flux, with the calibration cards. *)
Definition dark_file : fits.HDUList :=
  [{| fits.header := small_header; fits.data := [[0]] |}].

Definition dark_kernel : Kernel :=
  {| disk := [("dark.fits", dark_file)]; opened := Some dark_file; stdout := [] |}.

(** ** The last two cells in binary64

    The same expressions on IEEE binary64 numbers, to see where rounding
    shows; [x ** 2] is the correctly rounded square. *)

Definition sigma_m64 (r_ap annulus_std flux_background_subtracted ERRCALF CALFCTR
                      : PrimFloat.float) : PrimFloat.float :=
  let square x := PrimFloat.mul x x in
  PrimFloat.sqrt
    (PrimFloat.add
       (PrimFloat.add
          (PrimFloat.mul
             (PrimFloat.mul 2%float 0x1.921fb54442d18p+1%float)
             (square (PrimFloat.div (PrimFloat.mul r_ap annulus_std)
                                    flux_background_subtracted)))
          (square (PrimFloat.div ERRCALF CALFCTR)))
       (square 0x1.999999999999ap-5%float)).

Definition absolute_uncertainty64 (sigma_m flux_background_subtracted : PrimFloat.float)
  : PrimFloat.float :=
  PrimFloat.mul sigma_m flux_background_subtracted.

(** * Properties *)

(** ** The relative uncertainty *)

Lemma PI_pos : 0 < PI.
Proof. exact PI_RGT_0. Qed.

(** The radicand is a sum of squares over the model term: it never goes
    below [0.05 ^ 2]. *)
Lemma radicand_floor (a b : R) : 0.05 ^ 2 <= 2 * PI * a ^ 2 + b ^ 2 + 0.05 ^ 2.
Proof.
  pose proof PI_pos as Hpi.
  pose proof (pow2_ge_0 a) as Ha.
  pose proof (pow2_ge_0 b) as Hb.
  nra.
Qed.

Lemma radicand_nonneg (a b : R) : 0 <= 2 * PI * a ^ 2 + b ^ 2 + 0.05 ^ 2.
Proof. pose proof (radicand_floor a b); lra. Qed.

Lemma py_truediv_number (e c : hval) (x y : R) :
  number e = Some x -> number c = Some y -> y <> 0 -> py_truediv e c = Ok (x / y).
Proof.
  intros He Hc Hy; unfold py_truediv; rewrite He, Hc.
  destruct (Req_dec_T y 0); [contradiction | reflexivity].
Qed.

Lemma py_truediv_zero (e c : hval) (x : R) :
  number e = Some x -> number c = Some 0 -> py_truediv e c = Raise ZeroDivisionError.
Proof.
  intros He Hc; unfold py_truediv; rewrite He, Hc.
  destruct (Req_dec_T 0 0) as [_ | Hn]; [reflexivity | now elim Hn].
Qed.

Lemma np_sqrt_nonneg (x : R) : 0 <= x -> np_sqrt (Fin x) = Fin (sqrt x).
Proof.
  intros Hx; unfold np_sqrt; destruct (Rle_dec 0 x); [reflexivity | contradiction].
Qed.

Lemma np_div_nonzero (x d : R) : d <> 0 -> np_div (Fin x) d = Fin (x / d).
Proof.
  intros Hd; unfold np_div; destruct (Req_dec_T d 0); [contradiction | reflexivity].
Qed.

Lemma np_div_zero (a : float64) : np_div a 0 = NonFin.
Proof.
  destruct a as [x |]; simpl; [| reflexivity].
  destruct (Req_dec_T 0 0) as [_ | Hn]; [reflexivity | now elim Hn].
Qed.

(** The value of [sigma_m] wherever both divisions are by a nonzero number. *)
Lemma sigma_m_value (r sigma_B F0 : R) (hdr : Header) (ERRCALF CALFCTR : R) :
  has_number hdr "ERRCALF" ERRCALF ->
  has_number hdr "CALFCTR" CALFCTR ->
  F0 <> 0 -> CALFCTR <> 0 ->
  sigma_m r (Fin sigma_B) F0 hdr = Ok (Fin (eta r sigma_B F0 ERRCALF CALFCTR)).
Proof.
  intros (e & He & Hne) (c & Hc & Hnc) HF HC.
  unfold sigma_m; rewrite He, Hc; cbn [rbind].
  rewrite (py_truediv_number e c ERRCALF CALFCTR Hne Hnc HC); cbn [rbind].
  cbn [np_mul]; rewrite (np_div_nonzero _ _ HF); cbn [np_pow np_mul np_add].
  rewrite np_sqrt_nonneg by apply radicand_nonneg.
  reflexivity.
Qed.

(** A finite [sigma_m] comes from a nonzero flux, and is 0.05 or more. *)
Lemma sigma_m_finite (r : R) (std : float64) (F0 : R) (hdr : Header) (s : R) :
  sigma_m r std F0 hdr = Ok (Fin s) -> F0 <> 0 /\ 0.05 <= s.
Proof.
  unfold sigma_m.
  destruct (getitem hdr "ERRCALF") as [e | ?]; cbn [rbind]; [| discriminate].
  destruct (getitem hdr "CALFCTR") as [c | ?]; cbn [rbind]; [| discriminate].
  destruct (py_truediv e c) as [q | ?]; cbn [rbind]; [| discriminate].
  destruct std as [sd |]; cbn [np_mul]; [| discriminate].
  unfold np_div; destruct (Req_dec_T F0 0) as [| HF]; [discriminate |].
  cbn [np_pow np_mul np_add].
  rewrite np_sqrt_nonneg by apply radicand_nonneg.
  intros Heq; injection Heq as <-; split; [exact HF |].
  rewrite <- (sqrt_pow2 0.05) at 1 by lra.
  apply sqrt_le_1_alt, radicand_floor.
Qed.

(** C1. Wherever the flux and CALFCTR are nonzero and the radicand is not
    negative, the relative uncertainty the notebook computes is
    sqrt(2 pi (r_ap sigma_B / F0)^2 + (ERRCALF / CALFCTR)^2 + 0.05^2). *)
Theorem sigma_m_formula (r_ap sigma_B F0 : R) (hdr : Header) (ERRCALF CALFCTR : R) :
  has_number hdr "ERRCALF" ERRCALF ->
  has_number hdr "CALFCTR" CALFCTR ->
  F0 <> 0 -> CALFCTR <> 0 ->
  0 <= 2 * PI * (r_ap * sigma_B / F0) ^ 2 + (ERRCALF / CALFCTR) ^ 2 + 0.05 ^ 2 ->
  sigma_m r_ap (Fin sigma_B) F0 hdr
  = Ok (Fin (sqrt (2 * PI * (r_ap * sigma_B / F0) ^ 2
                   + (ERRCALF / CALFCTR) ^ 2 + 0.05 ^ 2))).
Proof.
  intros HE HC HF HC0 _.
  exact (sigma_m_value r_ap sigma_B F0 hdr ERRCALF CALFCTR HE HC HF HC0).
Qed.

Lemma small_header_ERRCALF : has_number small_header "ERRCALF" 0.
Proof. exists (HFloat 0); split; reflexivity. Qed.

Lemma small_header_CALFCTR : has_number small_header "CALFCTR" 2.
Proof. exists (HFloat 2); split; reflexivity. Qed.

Lemma sigma_m_formula_witness :
  has_number small_header "ERRCALF" 0 /\
  has_number small_header "CALFCTR" 2 /\
  50 <> 0 /\ 2 <> 0 /\
  0 <= 2 * PI * (12 * 1 / 50) ^ 2 + (0 / 2) ^ 2 + 0.05 ^ 2 /\
  sigma_m 12 (Fin 1) 50 small_header
  = Ok (Fin (sqrt (2 * PI * (12 * 1 / 50) ^ 2 + (0 / 2) ^ 2 + 0.05 ^ 2))).
Proof.
  assert (H50 : 50 <> 0) by lra.
  assert (H2 : 2 <> 0) by lra.
  pose proof (radicand_nonneg (12 * 1 / 50) (0 / 2)) as Hrad.
  repeat split;
    try exact small_header_ERRCALF; try exact small_header_CALFCTR;
    try assumption.
  exact (sigma_m_formula 12 1 50 small_header 0 2
           small_header_ERRCALF small_header_CALFCTR H50 H2 Hrad).
Defined.

(** C8. Neither division is guarded: a zero flux makes the numpy quotient,
    and with it [sigma_m], non-finite, and a zero CALFCTR raises
    [ZeroDivisionError].  Where both are nonzero and the radicand is not
    negative the computation ends with a finite number. *)
Theorem sigma_m_total (r_ap sigma_B F0 : R) (hdr : Header) (ERRCALF CALFCTR : R) :
  has_number hdr "ERRCALF" ERRCALF ->
  has_number hdr "CALFCTR" CALFCTR ->
  (F0 = 0 -> CALFCTR <> 0 -> sigma_m r_ap (Fin sigma_B) F0 hdr = Ok NonFin) /\
  (CALFCTR = 0 -> sigma_m r_ap (Fin sigma_B) F0 hdr = Raise ZeroDivisionError) /\
  (F0 <> 0 -> CALFCTR <> 0 ->
   0 <= 2 * PI * (r_ap * sigma_B / F0) ^ 2 + (ERRCALF / CALFCTR) ^ 2 + 0.05 ^ 2 ->
   exists s, sigma_m r_ap (Fin sigma_B) F0 hdr = Ok (Fin s)).
Proof.
  intros HE HC; split; [| split].
  - intros -> HC0.
    destruct HE as (e & He & Hne), HC as (c & Hc & Hnc).
    unfold sigma_m; rewrite He, Hc; cbn [rbind].
    rewrite (py_truediv_number e c ERRCALF CALFCTR Hne Hnc HC0); cbn [rbind].
    cbn [np_mul]; rewrite np_div_zero; reflexivity.
  - intros ->.
    destruct HE as (e & He & Hne), HC as (c & Hc & Hnc).
    unfold sigma_m; rewrite He, Hc; cbn [rbind].
    rewrite (py_truediv_zero e c ERRCALF Hne Hnc); reflexivity.
  - intros HF HC0 _; eexists.
    exact (sigma_m_value r_ap sigma_B F0 hdr ERRCALF CALFCTR HE HC HF HC0).
Qed.

Lemma sigma_m_total_witness :
  50 <> 0 /\ 2 <> 0 /\
  0 <= 2 * PI * (12 * 1 / 50) ^ 2 + (0 / 2) ^ 2 + 0.05 ^ 2 /\
  exists s, sigma_m 12 (Fin 1) 50 small_header = Ok (Fin s).
Proof.
  assert (H50 : 50 <> 0) by lra.
  assert (H2 : 2 <> 0) by lra.
  pose proof (radicand_nonneg (12 * 1 / 50) (0 / 2)) as Hrad.
  repeat split; try assumption.
  exact (proj2 (proj2 (sigma_m_total 12 1 50 small_header 0 2
                         small_header_ERRCALF small_header_CALFCTR)) H50 H2 Hrad).
Defined.

(** C9. With a nonzero flux and a nonzero CALFCTR the relative uncertainty
    is a number, and it is 0.05 or more: the model term is a floor.  Whatever
    the standard deviation handed to it, a finite [sigma_m] is never below
    0.05. *)
Theorem sigma_m_floor (r_ap sigma_B F0 : R) (hdr : Header) (ERRCALF CALFCTR : R) :
  has_number hdr "ERRCALF" ERRCALF ->
  has_number hdr "CALFCTR" CALFCTR ->
  F0 <> 0 -> CALFCTR <> 0 ->
  (exists s, sigma_m r_ap (Fin sigma_B) F0 hdr = Ok (Fin s) /\ 0.05 <= s)
  /\ (forall std s, sigma_m r_ap std F0 hdr = Ok (Fin s) -> 0.05 <= s).
Proof.
  intros HE HC HF HC0.
  pose proof (sigma_m_value r_ap sigma_B F0 hdr ERRCALF CALFCTR HE HC HF HC0) as Hv.
  split.
  - eexists; split; [exact Hv |].
    exact (proj2 (sigma_m_finite _ _ _ _ _ Hv)).
  - intros std s Hs; exact (proj2 (sigma_m_finite _ _ _ _ _ Hs)).
Qed.

Lemma sigma_m_floor_witness :
  50 <> 0 /\ 2 <> 0 /\
  exists s, sigma_m 12 (Fin 1) 50 small_header = Ok (Fin s) /\ 0.05 <= s.
Proof.
  assert (H50 : 50 <> 0) by lra.
  assert (H2 : 2 <> 0) by lra.
  repeat split; try assumption.
  exact (proj1 (sigma_m_floor 12 1 50 small_header 0 2
                  small_header_ERRCALF small_header_CALFCTR H50 H2)).
Defined.

(** ** The expression as a straight-line program *)

(** The syntax and the cell compute the same thing: the expression has a
    value exactly where the cell ends with a finite number, and it is that
    number. *)
Lemma eval_sigma_m_expr (r sigma_B F0 : R) (hdr : Header) :
  eval (names_of r sigma_B F0) hdr sigma_m_expr
  = match sigma_m r (Fin sigma_B) F0 hdr with
    | Ok (Fin v) => Some v
    | _ => None
    end.
Proof.
  unfold sigma_m, sigma_m_expr, py_truediv; cbn [eval names_of np_mul].
  unfold np_div.
  destruct (Req_dec_T F0 0) as [HF | HF].
  - destruct (getitem hdr "ERRCALF") as [e | ?]; cbn [rbind]; [| reflexivity].
    destruct (getitem hdr "CALFCTR") as [c | ?]; cbn [rbind]; [| reflexivity].
    destruct (number e), (number c); try reflexivity.
    destruct (Req_dec_T _ 0); reflexivity.
  - destruct (getitem hdr "ERRCALF") as [e | ?]; cbn [rbind]; [| reflexivity].
    destruct (getitem hdr "CALFCTR") as [c | ?]; cbn [rbind];
      [| destruct (number e); reflexivity].
    destruct (number e) as [x |], (number c) as [y |]; try reflexivity.
    destruct (Req_dec_T y 0); cbn [rbind]; [reflexivity |].
    cbn [np_pow np_mul np_add np_sqrt].
    destruct (Rle_dec 0 _); reflexivity.
Qed.

Lemma count_sigma_m_expr :
  count sigma_m_expr = {| mults := 3; divs := 2; adds := 2; pows := 3; sqrts := 1 |}.
Proof. reflexivity. Qed.

(** C6, as stated, fails: the expression of [sigma_m] does not consist of
    three multiplications, one division and a square root; it divides twice. *)
Lemma sigma_m_expr_not_one_division :
  ~ (mults (count sigma_m_expr) = 3%nat /\ divs (count sigma_m_expr) = 1%nat
     /\ sqrts (count sigma_m_expr) = 1%nat).
Proof.
  rewrite count_sigma_m_expr; cbn [mults divs sqrts].
  intros (_ & Hdiv & _); discriminate Hdiv.
Qed.

(** C6, amended. The expression of [sigma_m] is straight-line: three
    multiplications, two divisions, three squarings, two additions and one
    square root.  For all finite values of its variables and every header it
    has a value exactly where the cell ends with a finite number, and the
    value is that number; with numbers under ERRCALF and CALFCTR, a nonzero
    flux and a nonzero CALFCTR the value is the handbook formula. *)
Theorem sigma_m_expr_refines (r sigma_B F0 : R) (hdr : Header) :
  count sigma_m_expr = {| mults := 3; divs := 2; adds := 2; pows := 3; sqrts := 1 |}
  /\ (forall v,
        eval (names_of r sigma_B F0) hdr sigma_m_expr = Some v
        <-> sigma_m r (Fin sigma_B) F0 hdr = Ok (Fin v))
  /\ (forall ERRCALF CALFCTR,
        has_number hdr "ERRCALF" ERRCALF ->
        has_number hdr "CALFCTR" CALFCTR ->
        F0 <> 0 -> CALFCTR <> 0 ->
        eval (names_of r sigma_B F0) hdr sigma_m_expr
        = Some (sqrt (2 * PI * (r * sigma_B / F0) ^ 2
                      + (ERRCALF / CALFCTR) ^ 2 + 0.05 ^ 2))
        /\ sigma_m r (Fin sigma_B) F0 hdr
           = Ok (Fin (sqrt (2 * PI * (r * sigma_B / F0) ^ 2
                            + (ERRCALF / CALFCTR) ^ 2 + 0.05 ^ 2)))).
Proof.
  split; [exact count_sigma_m_expr | split].
  - intros v; rewrite eval_sigma_m_expr.
    destruct (sigma_m r (Fin sigma_B) F0 hdr) as [[x |] | e]; split; intros Heq;
      try discriminate; injection Heq as <-; reflexivity.
  - intros ERRCALF CALFCTR HE HC HF HC0.
    pose proof (sigma_m_value r sigma_B F0 hdr ERRCALF CALFCTR HE HC HF HC0) as Hv.
    split; [| exact Hv].
    rewrite eval_sigma_m_expr, Hv; reflexivity.
Qed.

Lemma sigma_m_expr_refines_witness :
  50 <> 0 /\ 2 <> 0 /\
  eval (names_of 12 1 50) small_header sigma_m_expr
  = Some (sqrt (2 * PI * (12 * 1 / 50) ^ 2 + (0 / 2) ^ 2 + 0.05 ^ 2)).
Proof.
  assert (H50 : 50 <> 0) by lra.
  assert (H2 : 2 <> 0) by lra.
  repeat split; try assumption.
  exact (proj1 (proj2 (proj2 (sigma_m_expr_refines 12 1 50 small_header)) 0 2
                  small_header_ERRCALF small_header_CALFCTR H50 H2)).
Defined.

(** ** Aperture sums *)

Lemma Rsum_cons (x : R) (xs : list R) : Rsum (x :: xs) = x + Rsum xs.
Proof. reflexivity. Qed.

(** The row sum, pixel by pixel. *)
Lemma sum_row_nth (w : nat -> R) (row : list R) (x0 : nat) :
  sum_row w x0 row
  = Rsum (map (fun i => w (x0 + i)%nat * nth i row 0) (seq 0 (List.length row))).
Proof.
  revert x0; induction row as [| v row IH]; intros x0; cbn [sum_row List.length].
  - reflexivity.
  - rewrite <- cons_seq, <- seq_shift, map_cons, map_map, Rsum_cons, Nat.add_0_r.
    cbn [nth]; f_equal; rewrite (IH (S x0)); f_equal.
    apply map_ext; intros i; now rewrite Nat.add_succ_r.
Qed.

Lemma sum_image_nth (w : nat -> nat -> R) (image : Image) (y0 : nat) :
  sum_image w y0 image
  = Rsum (map (fun j =>
                 Rsum (map (fun x => w x (y0 + j)%nat * nth x (nth j image []) 0)
                           (seq 0 (List.length (nth j image [])))))
              (seq 0 (List.length image))).
Proof.
  revert y0; induction image as [| row image IH]; intros y0;
    cbn [sum_image List.length].
  - reflexivity.
  - rewrite <- cons_seq, <- seq_shift, map_cons, map_map, Rsum_cons, Nat.add_0_r.
    cbn [nth]; f_equal; [apply (sum_row_nth (fun x => w x y0) row 0) |].
    rewrite (IH (S y0)); f_equal.
    apply map_ext; intros j; now rewrite Nat.add_succ_r.
Qed.

(** What the cells add up is the sum over the pixels of the array. *)
Lemma sum_image_total (w : nat -> nat -> R) (image : Image) :
  sum_image w 0 image = total w image.
Proof. apply (sum_image_nth w image 0). Qed.

Lemma sum_row_le (w1 w2 : nat -> R) (row : list R) (x0 : nat) :
  (forall x, w1 x <= w2 x) -> (forall v, In v row -> 0 <= v) ->
  sum_row w1 x0 row <= sum_row w2 x0 row.
Proof.
  intros Hw; revert x0; induction row as [| v row IH]; intros x0 Hpos;
    cbn [sum_row]; [lra |].
  assert (Hv : 0 <= v) by (apply Hpos; left; reflexivity).
  assert (Hrow : sum_row w1 (S x0) row <= sum_row w2 (S x0) row)
    by (apply IH; intros u Hu; apply Hpos; right; exact Hu).
  pose proof (Hw x0); nra.
Qed.

Lemma sum_image_le (w1 w2 : nat -> nat -> R) (image : Image) (y0 : nat) :
  (forall x y, w1 x y <= w2 x y) -> nonnegative image ->
  sum_image w1 y0 image <= sum_image w2 y0 image.
Proof.
  intros Hw; revert y0; induction image as [| row image IH]; intros y0 Hpos;
    cbn [sum_image]; [lra |].
  assert (Hrow : sum_row (fun x => w1 x y0) 0 row <= sum_row (fun x => w2 x y0) 0 row).
  { apply sum_row_le; [intros x; apply Hw |].
    intros v Hv; apply (Hpos row v); [left; reflexivity | exact Hv]. }
  assert (Hrest : sum_image w1 (S y0) image <= sum_image w2 (S y0) image).
  { apply IH; intros r v Hr Hv; apply (Hpos r v); [right; exact Hr | exact Hv]. }
  lra.
Qed.

Lemma whole_le_exact `{Photutils} (c : R * R) (r : R) (x y : nat) :
  whole_pixel c r x y <= exact c r x y.
Proof.
  unfold whole_pixel; destruct (Rle_dec _ _) as [Hin | _].
  - rewrite (exact_within c r x y Hin); lra.
  - apply exact_range.
Qed.

Lemma exact_le_touched `{Photutils} (c : R * R) (r : R) (x y : nat) :
  exact c r x y <= touched_pixel c r x y.
Proof.
  unfold touched_pixel; destruct (Rle_dec _ _) as [Hout | _].
  - rewrite (exact_beyond c r x y Hout); lra.
  - apply exact_range.
Qed.

(** What [get_aperture_sum] returns, by whether the box of the aperture
    meets the array. *)
Lemma get_aperture_sum_value `{Photutils} (h : fits.HDU) (rest : fits.HDUList)
    (pos_pix : R * R) (r_pix : R) :
  0 < r_pix ->
  exists pix_aperture,
    ap_positions pix_aperture = pos_pix
    /\ ap_r pix_aperture = r_pix
    /\ get_aperture_sum (h :: rest) pos_pix r_pix
       = Ok ([if meets_dec pos_pix r_pix h.(fits.data)
              then Fin (total (exact pos_pix r_pix) h.(fits.data))
              else NonFin],
             pix_aperture, PI * r_pix ^ 2).
Proof.
  intros Hr; unfold get_aperture_sum, CircularAperture.
  destruct (Rlt_dec 0 r_pix) as [H0 | Hn]; [| contradiction].
  exists {| ap_positions := pos_pix; ap_r := r_pix; ap_valid := H0 |}.
  cbn [rbind hdu0 ap_positions ap_r]; split; [reflexivity | split; [reflexivity |]].
  unfold aperture_photometry, aperture_sum;
    cbn [centre extent ap_positions ap_r area weight].
  rewrite <- (sum_image_total (exact pos_pix r_pix)); reflexivity.
Qed.

Ltac decide_weights :=
  repeat match goal with
         | |- context [Rlt_dec ?a ?b] =>
             destruct (Rlt_dec a b) as [? | ?];
             [try (exfalso; lra) | try (exfalso; lra)]
         end.

(** C3, as stated, fails: for an aperture whose box misses the array the
    function returns [nan], not the sum of the pixels in the circle, which is
    zero since no pixel of the array touches it. *)
Lemma get_aperture_sum_off_array :
  exists pix_aperture area,
    @get_aperture_sum pixel_centres small_file (10, 10) 1
    = Ok ([NonFin], pix_aperture, area)
    /\ total (touched_pixel (10, 10) 1) [[1]] = 0.
Proof.
  assert (H1 : 0 < 1) by lra.
  destruct (@get_aperture_sum_value pixel_centres
              {| fits.header := small_header; fits.data := [[1]] |} [] (10, 10) 1 H1)
    as (a & _ & _ & Ha).
  exists a, (PI * 1 ^ 2); split.
  - unfold small_file; rewrite Ha; cbn [fits.data].
    destruct (meets_dec (10, 10) 1 [[1]]) as [Hm | _]; [| reflexivity].
    exfalso; unfold meets in Hm; cbn [fst snd List.length INR] in Hm; lra.
  - unfold total, pixel_value, touched_pixel, Rsum;
      cbn [List.length seq map fold_right nth fst snd INR].
    destruct (Rle_dec _ _) as [_ | Hn]; [ring |].
    exfalso; apply Hn.
    rewrite Rabs_left by lra.
    rewrite Rmax_right by lra.
    lra.
Qed.

(** C3, amended. For a radius [r_pix > 0], [get_aperture_sum] returns the
    aperture, the area [pi r_pix^2] of the circle and a one-row column.  When
    the box of the aperture meets the array the column holds the sum, over
    the pixels of the array, of each pixel's value times the fraction of the
    pixel that lies in the circle of radius [r_pix] about [pos_pix]; when it
    does not, the column holds [nan].  On an array without negative pixels
    the sum is at least the sum of the pixels wholly in the circle and at
    most the sum of the pixels the circle touches. *)
Theorem get_aperture_sum_spec `{Photutils} (h : fits.HDU) (rest : fits.HDUList)
    (pos_pix : R * R) (r_pix : R) :
  0 < r_pix ->
  exists pix_aperture,
    ap_positions pix_aperture = pos_pix
    /\ ap_r pix_aperture = r_pix
    /\ (meets pos_pix r_pix h.(fits.data) ->
        get_aperture_sum (h :: rest) pos_pix r_pix
        = Ok ([Fin (total (exact pos_pix r_pix) h.(fits.data))], pix_aperture,
              PI * r_pix ^ 2))
    /\ (~ meets pos_pix r_pix h.(fits.data) ->
        get_aperture_sum (h :: rest) pos_pix r_pix
        = Ok ([NonFin], pix_aperture, PI * r_pix ^ 2))
    /\ (nonnegative h.(fits.data) ->
        total (whole_pixel pos_pix r_pix) h.(fits.data)
        <= total (exact pos_pix r_pix) h.(fits.data)
        <= total (touched_pixel pos_pix r_pix) h.(fits.data)).
Proof.
  intros Hr.
  destruct (get_aperture_sum_value h rest pos_pix r_pix Hr) as (a & Hp & Hra & Ha).
  exists a; split; [exact Hp | split; [exact Hra | split; [| split]]].
  - intros Hm; rewrite Ha.
    destruct (meets_dec pos_pix r_pix (fits.data h)); [reflexivity | contradiction].
  - intros Hm; rewrite Ha.
    destruct (meets_dec pos_pix r_pix (fits.data h)); [contradiction | reflexivity].
  - intros Hpos; rewrite <- !sum_image_total; split; apply sum_image_le; trivial.
    + intros x y; apply whole_le_exact.
    + intros x y; apply exact_le_touched.
Qed.

Lemma cross_image_nonnegative : nonnegative cross_image.
Proof.
  intros row v Hrow Hv; unfold cross_image in Hrow; cbn [In] in Hrow.
  repeat match goal with
         | H : _ \/ _ |- _ => destruct H
         | H : False |- _ => destruct H
         end; subst row; cbn [In] in Hv;
    repeat match goal with
           | H : _ \/ _ |- _ => destruct H
           | H : False |- _ => destruct H
           end; subst v; lra.
Qed.

Lemma cross_meets (r : R) : 0 < r -> meets (1, 1) r cross_image.
Proof.
  intros Hr; unfold meets, cross_image; cbn [fst snd List.length INR]; lra.
Qed.

(** With weights by pixel centre, the circle of radius 1.2 about the source
    holds the source and its four neighbours. *)
Lemma cross_total_12 : total (centre_weight (1, 1) 1.2) cross_image = 18.
Proof.
  unfold total, pixel_value, cross_image, centre_weight, Rsum;
    cbn [List.length seq map fold_right nth fst snd INR].
  decide_weights; lra.
Qed.

Lemma get_aperture_sum_spec_witness :
  0 < 1.2 /\ meets (1, 1) 1.2 cross_image /\ nonnegative cross_image /\
  exists pix_aperture,
    @get_aperture_sum pixel_centres cross_file (1, 1) 1.2
    = Ok ([Fin 18], pix_aperture, PI * 1.2 ^ 2)
    /\ total (whole_pixel (1, 1) 1.2) cross_image
       <= 18 <= total (touched_pixel (1, 1) 1.2) cross_image.
Proof.
  assert (Hr : 0 < 1.2) by lra.
  pose proof (cross_meets 1.2 Hr) as Hm.
  split; [exact Hr | split; [exact Hm | split; [exact cross_image_nonnegative |]]].
  destruct (@get_aperture_sum_spec pixel_centres
              {| fits.header := small_header; fits.data := cross_image |} []
              (1, 1) 1.2 Hr) as (a & _ & _ & Hsum & _ & Hbounds).
  exists a; rewrite <- cross_total_12.
  split; [exact (Hsum Hm) | exact (Hbounds cross_image_nonnegative)].
Defined.

(** ** Background subtraction *)

(** The divisor of [bkg_mean] is never zero. *)
Lemma annulus_area_positive (a : circular_annulus) : 0 < area (Annulus a).
Proof.
  destruct a as [c r_in r_out [Hin Hout]]; cbn [area an_r_in an_r_out]; unfold np_pi.
  apply Rmult_lt_0_compat; [exact PI_pos | nra].
Qed.

Lemma CircularAnnulus_Ok (positions : R * R) (r_in r_out : R) (n : circular_annulus) :
  CircularAnnulus positions r_in r_out = Ok n ->
  an_positions n = positions /\ an_r_in n = r_in /\ an_r_out n = r_out.
Proof.
  unfold CircularAnnulus.
  destruct (Rlt_dec 0 r_in); [| discriminate].
  destruct (Rlt_dec r_in r_out); [| discriminate].
  intros Heq; injection Heq as <-; auto.
Qed.

Lemma CircularAnnulus_valid (positions : R * R) (r_in r_out : R) :
  0 < r_in < r_out -> exists n, CircularAnnulus positions r_in r_out = Ok n.
Proof.
  intros [Hin Hout]; unfold CircularAnnulus.
  destruct (Rlt_dec 0 r_in); [| contradiction].
  destruct (Rlt_dec r_in r_out); [| contradiction].
  eexists; reflexivity.
Qed.

Lemma sum_row_minus (w1 w2 : nat -> R) (row : list R) (x : nat) :
  sum_row (fun i => w1 i - w2 i) x row = sum_row w1 x row - sum_row w2 x row.
Proof.
  revert x; induction row as [| v row IH]; intros x; cbn [sum_row].
  - ring.
  - rewrite IH; ring.
Qed.

Lemma sum_image_minus (w1 w2 : nat -> nat -> R) (image : Image) (y : nat) :
  sum_image (fun i j => w1 i j - w2 i j) y image
  = sum_image w1 y image - sum_image w2 y image.
Proof.
  revert y; induction image as [| row image IH]; intros y; cbn [sum_image].
  - ring.
  - rewrite IH, (sum_row_minus (fun x => w1 x y) (fun x => w2 x y)); ring.
Qed.

(** The flux the cells arrive at, from the two sums. *)
Lemma measure_flux_run `{Photutils} (o : Options) (k : Kernel)
    (h : fits.HDU) (rest : fits.HDUList) (n : circular_annulus) :
  opened k = Some (h :: rest) ->
  0 < r_ap o ->
  CircularAnnulus (pos_pix o) (background_aperture_inner_radius o)
                  (background_aperture_outter_radius o) = Ok n ->
  let removed :=
    np_div (aperture_sum h.(fits.data) (Annulus n)) (area (Annulus n)) in
  let flux :=
    np_sub (if meets_dec (pos_pix o) (r_ap o) h.(fits.data)
            then Fin (sum_image (exact (pos_pix o) (r_ap o)) 0 h.(fits.data))
            else NonFin)
           removed in
  measure_flux o k = (printed k (flux_lines removed flux), Ok (flux, n)).
Proof.
  intros Hopen Hr Hann; cbv zeta.
  unfold measure_flux, bind at 1, name_data; rewrite Hopen.
  unfold bind at 1, lift at 1, get_aperture_sum, CircularAperture.
  destruct (Rlt_dec 0 (r_ap o)) as [H0 | Hn]; [| contradiction].
  cbn [rbind hdu0].
  unfold bind at 1, lift at 1; rewrite Hann.
  unfold bind at 1, subtract_background.
  unfold bind at 1, name_data; rewrite Hopen.
  unfold bind at 1, lift at 1; cbn [hdu0].
  unfold bind, lift, print, ret, flux_background_subtracted, bkg_mean,
    aperture_photometry; cbn [map item0 rbind disk opened stdout].
  unfold printed, flux_lines; rewrite <- app_assoc; reflexivity.
Qed.

(** The flux in terms of the pixels, when both boxes meet the array. *)
Lemma measure_flux_value `{Photutils} (o : Options) (k : Kernel)
    (h : fits.HDU) (rest : fits.HDUList) :
  opened k = Some (h :: rest) ->
  0 < r_ap o ->
  0 < background_aperture_inner_radius o < background_aperture_outter_radius o ->
  meets (pos_pix o) (r_ap o) h.(fits.data) ->
  meets (pos_pix o) (background_aperture_outter_radius o) h.(fits.data) ->
  exists k' n,
    measure_flux o k
    = (k',
       Ok (Fin (total (exact (pos_pix o) (r_ap o)) h.(fits.data)
                - (total (exact (pos_pix o) (background_aperture_outter_radius o))
                         h.(fits.data)
                   - total (exact (pos_pix o) (background_aperture_inner_radius o))
                           h.(fits.data))
                  / (PI * (background_aperture_outter_radius o ^ 2
                           - background_aperture_inner_radius o ^ 2))),
           n)).
Proof.
  intros Hopen Hr Hval Hm1 Hm2.
  destruct (CircularAnnulus_valid (pos_pix o) _ _ Hval) as (n & Hann).
  pose proof (CircularAnnulus_Ok _ _ _ _ Hann) as (Hp & Hi & Ho).
  rewrite (measure_flux_run o k h rest n Hopen Hr Hann).
  do 2 eexists; f_equal; f_equal; f_equal.
  unfold aperture_sum; cbn [centre extent area].
  change (weight (Annulus n))
    with (fun x y => exact (an_positions n) (an_r_out n) x y
                     - exact (an_positions n) (an_r_in n) x y).
  rewrite Hp, Hi, Ho.
  destruct (meets_dec (pos_pix o) (r_ap o) (fits.data h)); [| contradiction].
  destruct (meets_dec (pos_pix o) (background_aperture_outter_radius o) (fits.data h));
    [| contradiction].
  rewrite np_div_nonzero.
  - cbn [np_sub]; rewrite sum_image_minus, !sum_image_total; reflexivity.
  - pose proof (annulus_area_positive n) as Ha; cbn [area] in Ha.
    rewrite Hi, Ho in Ha; unfold np_pi in *; lra.
Qed.

(** With a box off the array the flux is [nan]. *)
Lemma measure_flux_nan `{Photutils} (o : Options) (k : Kernel)
    (h : fits.HDU) (rest : fits.HDUList) :
  opened k = Some (h :: rest) ->
  0 < r_ap o ->
  0 < background_aperture_inner_radius o < background_aperture_outter_radius o ->
  ~ meets (pos_pix o) (r_ap o) h.(fits.data)
  \/ ~ meets (pos_pix o) (background_aperture_outter_radius o) h.(fits.data) ->
  exists k' n, measure_flux o k = (k', Ok (NonFin, n)).
Proof.
  intros Hopen Hr Hval Hm.
  destruct (CircularAnnulus_valid (pos_pix o) _ _ Hval) as (n & Hann).
  pose proof (CircularAnnulus_Ok _ _ _ _ Hann) as (Hp & Hi & Ho).
  rewrite (measure_flux_run o k h rest n Hopen Hr Hann).
  do 2 eexists; f_equal; f_equal; f_equal.
  unfold aperture_sum; cbn [centre extent]; rewrite Hp, Ho.
  destruct Hm as [Hm | Hm].
  - destruct (meets_dec (pos_pix o) (r_ap o) (fits.data h)); [contradiction |].
    reflexivity.
  - destruct (meets_dec (pos_pix o) (background_aperture_outter_radius o) (fits.data h));
      [contradiction |].
    cbn [np_div]; destruct (meets_dec _ _ _); reflexivity.
Qed.

(** ** Running cells *)

Lemma bind_Ok {A B : Type} (m : Cell A) (f : A -> Cell B) (k k' : Kernel) (b : B) :
  bind m f k = (k', Ok b) ->
  exists a k1, m k = (k1, Ok a) /\ f a k1 = (k', Ok b).
Proof.
  unfold bind; destruct (m k) as [k1 [a | e]]; [eauto | discriminate].
Qed.

Lemma lift_Ok {A : Type} (r : result A) (k k' : Kernel) (a : A) :
  lift r k = (k', Ok a) -> r = Ok a /\ k' = k.
Proof. unfold lift; intros Heq; injection Heq as -> ->; auto. Qed.

Lemma estimate_uncertainty_Ok `{Photutils} (o : Options) (flux : float64)
    (annulus_aperture : circular_annulus) (k k' : Kernel) (rep : Report) :
  estimate_uncertainty o flux annulus_aperture k = (k', Ok rep) ->
  final_flux rep = flux
  /\ absolute rep = absolute_uncertainty_np (relative rep) flux
  /\ exists std hdr, sigma_m_np (r_ap o) std flux hdr = Ok (relative rep).
Proof.
  unfold estimate_uncertainty; intros Hrun.
  apply bind_Ok in Hrun as (data & k1 & _ & Hrun).
  apply bind_Ok in Hrun as (h & k2 & _ & Hrun).
  apply bind_Ok in Hrun as (std & k3 & _ & Hrun).
  apply bind_Ok in Hrun as (hdr & k4 & _ & Hrun).
  apply bind_Ok in Hrun as (sigma & k5 & Hsigma & Hrun).
  apply lift_Ok in Hsigma as [Hsigma _].
  apply bind_Ok in Hrun as (? & k6 & _ & Hrun).
  apply bind_Ok in Hrun as (? & k7 & _ & Hrun).
  unfold ret in Hrun; injection Hrun as _ <-; cbn [final_flux relative absolute].
  eauto.
Qed.

Lemma photometry_Ok `{Photutils} (o : Options) (k k' : Kernel) (rep : Report) :
  photometry o k = (k', Ok rep) ->
  absolute rep = absolute_uncertainty_np (relative rep) (final_flux rep)
  /\ (exists k1 annulus_aperture,
        measure_flux o k = (k1, Ok (final_flux rep, annulus_aperture)))
  /\ exists std hdr, sigma_m_np (r_ap o) std (final_flux rep) hdr = Ok (relative rep).
Proof.
  unfold photometry; intros Hrun.
  apply bind_Ok in Hrun as ([flux n] & k1 & Hm & Hrun); cbn [fst snd] in Hrun.
  apply estimate_uncertainty_Ok in Hrun as (Hf & Ha & Hs).
  rewrite Hf; eauto.
Qed.

(** C2, as stated, fails: with the aperture and the annulus off the array
    the flux the cells arrive at is [nan], not a sum of pixels less a mean
    background. *)
Lemma background_subtraction_off_array :
  exists k' annulus_aperture,
    @measure_flux pixel_centres stray_options cross_kernel
    = (k', Ok (NonFin, annulus_aperture)).
Proof.
  assert (Hr : 0 < 0.6) by lra.
  assert (Hval : 0 < 0.8 < 1.2) by lra.
  apply (@measure_flux_nan pixel_centres stray_options cross_kernel
           {| fits.header := small_header; fits.data := cross_image |} []
           eq_refl Hr Hval).
  left; unfold meets, cross_image; cbn [stray_options pos_pix r_ap fits.data fst snd
                                         List.length INR]; lra.
Qed.

(** C2, amended. For a loaded image, an aperture of positive radius and an
    annulus with [0 < r_in < r_out], when the boxes of both meet the array
    the background subtraction produces, as the final flux, the aperture sum
    minus the mean background per pixel of the annulus: the annulus sum
    divided by the annulus area [pi (r_out^2 - r_in^2)].  The aperture sum is
    the sum over the pixels of the array of each value times the fraction of
    the pixel in the aperture circle; the annulus sum is the like sum for the
    outer circle less the one for the inner circle.  When a box misses the
    array the flux is [nan]. *)
Theorem background_subtraction_spec `{Photutils} (o : Options) (k : Kernel)
    (h : fits.HDU) (rest : fits.HDUList) :
  opened k = Some (h :: rest) ->
  0 < r_ap o ->
  0 < background_aperture_inner_radius o < background_aperture_outter_radius o ->
  let aperture_sum := total (exact (pos_pix o) (r_ap o)) h.(fits.data) in
  let annulus_sum :=
    total (exact (pos_pix o) (background_aperture_outter_radius o)) h.(fits.data)
    - total (exact (pos_pix o) (background_aperture_inner_radius o)) h.(fits.data) in
  let annulus_area :=
    PI * (background_aperture_outter_radius o ^ 2
          - background_aperture_inner_radius o ^ 2) in
  (meets (pos_pix o) (r_ap o) h.(fits.data) ->
   meets (pos_pix o) (background_aperture_outter_radius o) h.(fits.data) ->
   (exists k' annulus_aperture,
      measure_flux o k
      = (k', Ok (Fin (aperture_sum - annulus_sum / annulus_area), annulus_aperture)))
   /\ (forall k' rep,
         photometry o k = (k', Ok rep) ->
         final_flux rep = Fin (aperture_sum - annulus_sum / annulus_area)))
  /\ (~ meets (pos_pix o) (r_ap o) h.(fits.data)
      \/ ~ meets (pos_pix o) (background_aperture_outter_radius o) h.(fits.data) ->
      exists k' annulus_aperture, measure_flux o k = (k', Ok (NonFin, annulus_aperture))).
Proof.
  intros Hopen Hr Hann; cbv zeta; split.
  - intros Hm1 Hm2.
    destruct (measure_flux_value o k h rest Hopen Hr Hann Hm1 Hm2) as (k1 & n & Hm).
    split; [eauto |].
    intros k' rep Hrun.
    apply photometry_Ok in Hrun as (_ & (k2 & n2 & Hm') & _).
    rewrite Hm in Hm'; now injection Hm' as _ <- _.
  - apply (measure_flux_nan o k h rest Hopen Hr Hann).
Qed.

Lemma cross_total_06 : total (centre_weight (1, 1) 0.6) cross_image = 10.
Proof.
  unfold total, pixel_value, cross_image, centre_weight, Rsum;
    cbn [List.length seq map fold_right nth fst snd INR].
  decide_weights; lra.
Qed.

Lemma cross_total_08 : total (centre_weight (1, 1) 0.8) cross_image = 10.
Proof.
  unfold total, pixel_value, cross_image, centre_weight, Rsum;
    cbn [List.length seq map fold_right nth fst snd INR].
  decide_weights; lra.
Qed.

Lemma background_subtraction_spec_witness :
  0 < 0.6 /\ 0 < 0.8 < 1.2
  /\ meets (1, 1) 0.6 cross_image /\ meets (1, 1) 1.2 cross_image
  /\ exists k' annulus_aperture,
       @measure_flux pixel_centres cross_options cross_kernel
       = (k', Ok (Fin (10 - (18 - 10) / (PI * (1.2 ^ 2 - 0.8 ^ 2))), annulus_aperture)).
Proof.
  assert (Hr : 0 < 0.6) by lra.
  assert (Hval : 0 < 0.8 < 1.2) by lra.
  assert (H12 : 0 < 1.2) by lra.
  pose proof (cross_meets 0.6 Hr) as Hm1.
  pose proof (cross_meets 1.2 H12) as Hm2.
  split; [exact Hr | split; [exact Hval | split; [exact Hm1 | split; [exact Hm2 |]]]].
  pose proof (proj1 (proj1 (@background_subtraction_spec pixel_centres cross_options
                              cross_kernel
                              {| fits.header := small_header; fits.data := cross_image |}
                              [] eq_refl Hr Hval) Hm1 Hm2)) as Hw.
  cbn [cross_options pos_pix r_ap background_aperture_inner_radius
         background_aperture_outter_radius fits.data] in Hw.
  change (@exact pixel_centres) with centre_weight in Hw.
  rewrite cross_total_06, cross_total_12, cross_total_08 in Hw.
  exact Hw.
Defined.
(** ** What the cells leave alone *)

Section Frame.

Context {X : Type} (part : Kernel -> X).

(** Printing does not reach [part]. *)
Hypothesis part_print :
  forall k out,
    part {| disk := disk k; opened := opened k; stdout := out |} = part k.

Lemma keeps_ret {A : Type} (a : A) : keeps part (ret a).
Proof. intros k; reflexivity. Qed.

Lemma keeps_lift {A : Type} (r : result A) : keeps part (lift r).
Proof. intros k; reflexivity. Qed.

Lemma keeps_print (text : string) (vs : list float64) : keeps part (print text vs).
Proof. intros k; unfold print; cbn [fst]; apply part_print. Qed.

Lemma keeps_name_data : keeps part name_data.
Proof. intros k; unfold name_data; destruct (opened k); reflexivity. Qed.

Lemma keeps_name_hdr : keeps part name_hdr.
Proof. intros k; unfold name_hdr; destruct (opened k) as [[| h t] |]; reflexivity. Qed.

Lemma keeps_bind {A B : Type} (m : Cell A) (f : A -> Cell B) :
  keeps part m -> (forall a, keeps part (f a)) -> keeps part (bind m f).
Proof.
  intros Hm Hf k; unfold bind.
  specialize (Hm k); destruct (m k) as [k1 [a | e]]; cbn [fst] in Hm.
  - now rewrite Hf.
  - exact Hm.
Qed.

Lemma keeps_subtract_background `{Photutils} (sum_jy : list float64)
    (annulus_aperture : circular_annulus) :
  keeps part (subtract_background sum_jy annulus_aperture).
Proof.
  unfold subtract_background.
  repeat (apply keeps_bind; [| intros ?]);
    auto using keeps_ret, keeps_lift, keeps_print, keeps_name_data.
Qed.

Lemma keeps_measure_flux `{Photutils} (o : Options) : keeps part (measure_flux o).
Proof.
  unfold measure_flux.
  apply keeps_bind; [apply keeps_name_data | intros data].
  apply keeps_bind; [apply keeps_lift | intros [[sum_jy pix_aperture] area]].
  apply keeps_bind; [apply keeps_lift | intros annulus_aperture].
  apply keeps_bind; [apply keeps_subtract_background | intros flux].
  apply keeps_ret.
Qed.

Lemma keeps_estimate_uncertainty `{Photutils} (o : Options) (flux : float64)
    (annulus_aperture : circular_annulus) :
  keeps part (estimate_uncertainty o flux annulus_aperture).
Proof.
  unfold estimate_uncertainty.
  repeat (apply keeps_bind; [| intros ?]);
    auto using keeps_ret, keeps_lift, keeps_print, keeps_name_data, keeps_name_hdr.
Qed.

Lemma keeps_photometry `{Photutils} (o : Options) : keeps part (photometry o).
Proof.
  unfold photometry.
  apply keeps_bind; [apply keeps_measure_flux | intros measured].
  apply keeps_estimate_uncertainty.
Qed.

End Frame.

(** ** Header lookups *)

Lemma getitem_Raise (hdr : Header) (key : string) (e : exn) :
  getitem hdr key = Raise e -> e = KeyError key /\ forall v, ~ In (key, v) hdr.
Proof.
  induction hdr as [| [k v] cards IH]; cbn [getitem].
  - intros Heq; injection Heq as <-; split; [reflexivity | intros v []].
  - destruct (String.eqb k key) eqn:Hk; [discriminate |].
    intros Heq; destruct (IH Heq) as [He Hno]; split; [exact He |].
    intros u [Hin | Hin]; [| exact (Hno u Hin)].
    injection Hin as -> _; rewrite String.eqb_refl in Hk; discriminate.
Qed.

Lemma getitem_missing (hdr : Header) (key : string) :
  (forall v, ~ In (key, v) hdr) -> getitem hdr key = Raise (KeyError key).
Proof.
  induction hdr as [| [k v] cards IH]; cbn [getitem]; intros Hno.
  - reflexivity.
  - destruct (String.eqb k key) eqn:Hk.
    + apply String.eqb_eq in Hk; subst k; elim (Hno v); left; reflexivity.
    + apply IH; intros u Hin; apply (Hno u); right; exact Hin.
Qed.

Lemma getitem_app (hdr more : Header) (key : string) (v : hval) :
  getitem hdr key = Ok v -> getitem (hdr ++ more)%list key = Ok v.
Proof.
  induction hdr as [| [k u] cards IH]; cbn [getitem app]; [discriminate |].
  destruct (String.eqb k key); [trivial | exact IH].
Qed.

Lemma small_annulus : exists n, CircularAnnulus (0, 0) 2 3 = Ok n.
Proof.
  unfold CircularAnnulus.
  destruct (Rlt_dec 0 2) as [H2 | Hn]; [| exfalso; apply Hn; lra].
  destruct (Rlt_dec 2 3) as [H3 | Hn]; [| exfalso; apply Hn; lra].
  eexists; reflexivity.
Qed.


(** ** Outcomes of the flux cells *)

Lemma measure_flux_Ok `{Photutils} (o : Options) (k k' : Kernel) (flux : float64)
    (n : circular_annulus) :
  measure_flux o k = (k', Ok (flux, n)) ->
  exists h rest removed,
    opened k = Some (h :: rest)
    /\ 0 < r_ap o
    /\ CircularAnnulus (pos_pix o) (background_aperture_inner_radius o)
                       (background_aperture_outter_radius o) = Ok n
    /\ k' = printed k (flux_lines removed flux).
Proof.
  intros Hrun.
  destruct (opened k) as [[| h rest] |] eqn:Hopen.
  - exfalso; revert Hrun.
    unfold measure_flux, bind at 1, name_data; rewrite Hopen.
    unfold bind at 1, lift at 1, get_aperture_sum, CircularAperture.
    destruct (Rlt_dec 0 (r_ap o)); cbn [rbind hdu0]; discriminate.
  - destruct (Rlt_dec 0 (r_ap o)) as [Hr | Hr].
    + destruct (CircularAnnulus (pos_pix o) (background_aperture_inner_radius o)
                  (background_aperture_outter_radius o)) as [m | e] eqn:Hann.
      * rewrite (measure_flux_run o k h rest m Hopen Hr Hann) in Hrun.
        injection Hrun as <- <- <-; exists h, rest; eauto.
      * exfalso; revert Hrun.
        unfold measure_flux, bind at 1, name_data; rewrite Hopen.
        unfold bind at 1, lift at 1, get_aperture_sum, CircularAperture.
        destruct (Rlt_dec 0 (r_ap o)); [| contradiction]; cbn [rbind hdu0].
        unfold bind at 1, lift at 1; rewrite Hann; discriminate.
    + exfalso; revert Hrun.
      unfold measure_flux, bind at 1, name_data; rewrite Hopen.
      unfold bind at 1, lift at 1, get_aperture_sum, CircularAperture.
      destruct (Rlt_dec 0 (r_ap o)); [contradiction |]; cbn [rbind]; discriminate.
  - exfalso; revert Hrun.
    unfold measure_flux, bind at 1, name_data; rewrite Hopen; discriminate.
Qed.

(** The flux cells fail before they print. *)
Lemma measure_flux_Raise `{Photutils} (o : Options) (k k' : Kernel) (e : exn) :
  measure_flux o k = (k', Raise e) -> k' = k.
Proof.
  intros Hrun.
  destruct (opened k) as [[| h rest] |] eqn:Hopen.
  - revert Hrun.
    unfold measure_flux, bind at 1, name_data; rewrite Hopen.
    unfold bind at 1, lift at 1, get_aperture_sum, CircularAperture.
    destruct (Rlt_dec 0 (r_ap o)); cbn [rbind hdu0];
      intros Heq; injection Heq as <- _; reflexivity.
  - destruct (Rlt_dec 0 (r_ap o)) as [Hr | Hr].
    + destruct (CircularAnnulus (pos_pix o) (background_aperture_inner_radius o)
                  (background_aperture_outter_radius o)) as [m | e0] eqn:Hann.
      * rewrite (measure_flux_run o k h rest m Hopen Hr Hann) in Hrun; discriminate.
      * revert Hrun.
        unfold measure_flux, bind at 1, name_data; rewrite Hopen.
        unfold bind at 1, lift at 1, get_aperture_sum, CircularAperture.
        destruct (Rlt_dec 0 (r_ap o)); [| contradiction]; cbn [rbind hdu0].
        unfold bind at 1, lift at 1; rewrite Hann.
        intros Heq; injection Heq as <- _; reflexivity.
    + revert Hrun.
      unfold measure_flux, bind at 1, name_data; rewrite Hopen.
      unfold bind at 1, lift at 1, get_aperture_sum, CircularAperture.
      destruct (Rlt_dec 0 (r_ap o)); [contradiction |]; cbn [rbind].
      intros Heq; injection Heq as <- _; reflexivity.
  - revert Hrun.
    unfold measure_flux, bind at 1, name_data; rewrite Hopen.
    intros Heq; injection Heq as <- _; reflexivity.
Qed.

Lemma small_bad_options_run :
  @measure_flux pixel_centres
     {| r_ap := 1; background_aperture_inner_radius := 3;
        background_aperture_outter_radius := 2; pos_pix := (0, 0) |}
     small_kernel
  = (small_kernel, Raise ValueError).
Proof.
  unfold measure_flux, bind at 1, name_data; cbn [small_kernel opened].
  unfold bind at 1, lift at 1, get_aperture_sum, CircularAperture.
  cbn [r_ap pos_pix background_aperture_inner_radius
         background_aperture_outter_radius].
  destruct (Rlt_dec 0 1) as [H01 | Hn]; [| exfalso; apply Hn; lra].
  cbn [rbind hdu0 small_file].
  unfold bind at 1, lift at 1, CircularAnnulus.
  destruct (Rlt_dec 0 3) as [H03 | Hn]; [| exfalso; apply Hn; lra].
  destruct (Rlt_dec 3 2) as [Hc | _]; [exfalso; lra | reflexivity].
Qed.

(** The uncertainty cells on a kernel whose file is opened, once the
    standard deviation of the annulus is known: they end as [sigma_m] ends. *)
Lemma estimate_uncertainty_run `{Photutils} (o : Options) (flux : float64)
    (n : circular_annulus) (k : Kernel) (h : fits.HDU) (rest : fits.HDUList)
    (std : float64) :
  opened k = Some (h :: rest) ->
  annulus_std h.(fits.data) n = Ok std ->
  estimate_uncertainty o flux n k
  = match sigma_m_np (r_ap o) std flux h.(fits.header) with
    | Ok sigma =>
        let rep := {| final_flux := flux; relative := sigma;
                      absolute := absolute_uncertainty_np sigma flux |} in
        (printed k (uncertainty_lines rep), Ok rep)
    | Raise e => (k, Raise e)
    end.
Proof.
  intros Hopen Hstd.
  unfold estimate_uncertainty, bind at 1, name_data; rewrite Hopen.
  unfold bind at 1, lift at 1; cbn [hdu0].
  unfold bind at 1, lift at 1; rewrite Hstd.
  unfold bind at 1, name_hdr; rewrite Hopen.
  unfold bind at 1, lift at 1.
  destruct (sigma_m_np _ _ _ _) as [sigma | e]; [| reflexivity].
  unfold bind, print, ret; cbn [disk opened stdout].
  cbv zeta; unfold printed, uncertainty_lines; cbn [final_flux relative absolute].
  rewrite <- app_assoc; reflexivity.
Qed.

Lemma estimate_uncertainty_Raise `{Photutils} (o : Options) (flux : float64)
    (n : circular_annulus) (k k' : Kernel) (e : exn) :
  estimate_uncertainty o flux n k = (k', Raise e) -> k' = k.
Proof.
  unfold estimate_uncertainty, bind at 1, name_data.
  destruct (opened k) as [[| h rest] |] eqn:Hopen;
    try (intros Heq; injection Heq as <- _; reflexivity).
  unfold bind at 1, lift at 1; cbn [hdu0].
  unfold bind at 1, lift at 1.
  destruct (annulus_std _ _) as [std | e0];
    [| intros Heq; injection Heq as <- _; reflexivity].
  unfold bind at 1, name_hdr; rewrite Hopen.
  unfold bind at 1, lift at 1.
  destruct (sigma_m_np _ _ _ _) as [sigma | e0];
    [| intros Heq; injection Heq as <- _; reflexivity].
  unfold bind, print, ret; discriminate.
Qed.

(** ** What a failed run has printed *)
(** X7. A run that ends with an exception has printed nothing, or the two
    flux lines and nothing after them: no uncertainty is ever printed by a
    run that fails. *)
Theorem photometry_fails_before_uncertainty `{Photutils} (o : Options)
    (k k' : Kernel) (e : exn) :
  photometry o k = (k', Raise e) ->
  k' = k \/ exists removed flux, k' = printed k (flux_lines removed flux).
Proof.
  unfold photometry, bind; intros Hrun.
  destruct (measure_flux o k) as [k1 [[flux n] | e1]] eqn:Hm; cbn [fst snd] in Hrun.
  - apply estimate_uncertainty_Raise in Hrun; subst k'.
    apply measure_flux_Ok in Hm as (h & rest & b & _ & _ & _ & Hk1).
    right; eauto.
  - injection Hrun as <- <-.
    apply measure_flux_Raise in Hm; left; exact Hm.
Qed.

Lemma photometry_fails_before_uncertainty_witness :
  @photometry pixel_centres
     {| r_ap := 1; background_aperture_inner_radius := 3;
        background_aperture_outter_radius := 2; pos_pix := (0, 0) |}
     small_kernel
  = (small_kernel, Raise ValueError)
  /\ (small_kernel = small_kernel
      \/ exists removed flux, small_kernel = printed small_kernel (flux_lines removed flux)).
Proof.
  assert (Hrun : @photometry pixel_centres
                   {| r_ap := 1; background_aperture_inner_radius := 3;
                      background_aperture_outter_radius := 2; pos_pix := (0, 0) |}
                   small_kernel
                 = (small_kernel, Raise ValueError)).
  { unfold photometry, bind; rewrite small_bad_options_run; reflexivity. }
  split; [exact Hrun |].
  exact (@photometry_fails_before_uncertainty pixel_centres _ _ _ _ Hrun).
Defined.

(** X8. On a file whose header has no CALFCTR card the notebook measures and
    prints the flux, and only then fails, with a [KeyError]: for ERRCALF when
    that card is missing too, for CALFCTR when ERRCALF is there. *)
Theorem photometry_missing_card `{Photutils} (o : Options) (k : Kernel)
    (h : fits.HDU) (rest : fits.HDUList) (n : circular_annulus) (std : float64) :
  opened k = Some (h :: rest) ->
  0 < r_ap o ->
  CircularAnnulus (pos_pix o) (background_aperture_inner_radius o)
                  (background_aperture_outter_radius o) = Ok n ->
  annulus_std h.(fits.data) n = Ok std ->
  (forall v, ~ In ("CALFCTR", v) h.(fits.header)) ->
  exists removed flux key,
    photometry o k = (printed k (flux_lines removed flux), Raise (KeyError key))
    /\ ((forall v, ~ In ("ERRCALF", v) h.(fits.header)) -> key = "ERRCALF")
    /\ ((exists v, In ("ERRCALF", v) h.(fits.header)) -> key = "CALFCTR").
Proof.
  intros Hopen Hr Hann Hstd Hno.
  pose proof (measure_flux_run o k h rest n Hopen Hr Hann) as Hm; cbv zeta in Hm.
  set (removed := np_div (aperture_sum (fits.data h) (Annulus n)) (area (Annulus n)))
    in *.
  set (flux := np_sub _ removed) in Hm.
  assert (Hopen1 : opened (printed k (flux_lines removed flux)) = Some (h :: rest))
    by exact Hopen.
  pose proof (estimate_uncertainty_run o flux n _ h rest std Hopen1 Hstd) as He.
  exists removed, flux.
  unfold photometry, bind; rewrite Hm; cbn [fst snd]; rewrite He.
  assert (Hs : forall s F, sigma_m_np (r_ap o) s F (fits.header h)
                           = sigma_m (r_ap o) (match F with Fin _ => s | NonFin => NonFin end)
                               (match F with Fin x => x | NonFin => 1 end)
                               (fits.header h))
    by (intros s [x |]; reflexivity).
  rewrite Hs; unfold sigma_m.
  destruct (getitem (fits.header h) "ERRCALF") as [e |] eqn:HE; cbn [rbind].
  - rewrite (getitem_missing _ _ Hno); cbn [rbind].
    exists "CALFCTR"; split; [reflexivity | split; [| reflexivity]].
    intros HnoE; rewrite (getitem_missing _ _ HnoE) in HE; discriminate.
  - apply getitem_Raise in HE as [-> HnoE].
    exists "ERRCALF"; split; [reflexivity | split; [reflexivity |]].
    intros [v Hin]; elim (HnoE v Hin).
Qed.

Lemma bare_header_no_card (key : string) :
  key <> "SIMPLE" -> key <> "NAXIS" ->
  forall v, ~ In (key, v) [("SIMPLE", HBool true); ("NAXIS", HInt 2)].
Proof.
  intros H1 H2 v [Hin | [Hin | []]]; injection Hin as Hk _; congruence.
Qed.

Lemma photometry_missing_card_witness :
  exists removed flux,
    @photometry pixel_centres small_options bare_kernel
    = (printed bare_kernel (flux_lines removed flux), Raise (KeyError "ERRCALF")).
Proof.
  assert (H1 : 0 < 1) by lra.
  destruct small_annulus as (n & Hn).
  assert (HnoC : forall v, ~ In ("CALFCTR", v) [("SIMPLE", HBool true); ("NAXIS", HInt 2)])
    by (apply bare_header_no_card; discriminate).
  assert (HnoE : forall v, ~ In ("ERRCALF", v) [("SIMPLE", HBool true); ("NAXIS", HInt 2)])
    by (apply bare_header_no_card; discriminate).
  destruct (@photometry_missing_card pixel_centres small_options bare_kernel
              {| fits.header := [("SIMPLE", HBool true); ("NAXIS", HInt 2)];
                 fits.data := [[1]] |} [] n _ eq_refl H1 Hn eq_refl HnoC)
    as (removed & flux & key & Hrun & HkeyE & _).
  exists removed, flux.
  rewrite <- (HkeyE HnoE); exact Hrun.
Defined.



(** ** The absolute uncertainty *)

Lemma sigma_m_nan (r F0 : R) (hdr : Header) (s : R) :
  sigma_m r NonFin F0 hdr = Ok (Fin s) -> False.
Proof.
  unfold sigma_m.
  destruct (getitem hdr "ERRCALF") as [e | ?]; cbn [rbind]; [| discriminate].
  destruct (getitem hdr "CALFCTR") as [c | ?]; cbn [rbind]; [| discriminate].
  destruct (py_truediv e c) as [q | ?]; cbn [rbind]; discriminate.
Qed.

Lemma cross_flux_positive : 0 < 10 - (18 - 10) / (PI * (1.2 ^ 2 - 0.8 ^ 2)).
Proof.
  pose proof PI2_1 as Hpi.
  assert (Hd : 1.6 < PI * (1.2 ^ 2 - 0.8 ^ 2)) by lra.
  assert (Hinv : / (PI * (1.2 ^ 2 - 0.8 ^ 2)) < / 1.6)
    by (apply Rinv_lt_contravar; nra).
  unfold Rdiv; lra.
Qed.

Lemma cross_run :
  exists k' s,
    @photometry pixel_centres cross_options cross_kernel
    = (k', Ok {| final_flux := Fin (10 - (18 - 10) / (PI * (1.2 ^ 2 - 0.8 ^ 2)));
                 relative := Fin s;
                 absolute := Fin (s * (10 - (18 - 10) / (PI * (1.2 ^ 2 - 0.8 ^ 2)))) |}).
Proof.
  assert (Hr : 0 < 0.6) by lra.
  assert (Hval : 0 < 0.8 < 1.2) by lra.
  assert (H12 : 0 < 1.2) by lra.
  destruct (@measure_flux_value pixel_centres cross_options cross_kernel
              {| fits.header := small_header; fits.data := cross_image |} []
              eq_refl Hr Hval (cross_meets 0.6 Hr) (cross_meets 1.2 H12))
    as (k1 & n & Hm).
  cbn [cross_options pos_pix r_ap background_aperture_inner_radius
         background_aperture_outter_radius fits.data] in Hm.
  change (@exact pixel_centres) with centre_weight in Hm.
  rewrite cross_total_06, cross_total_12, cross_total_08 in Hm.
  assert (Hopen : opened k1 = Some cross_file).
  { pose proof (@keeps_measure_flux _ opened (fun _ _ => eq_refl) pixel_centres
                  cross_options cross_kernel) as Hk.
    rewrite Hm in Hk; exact Hk. }
  unfold photometry, bind at 1; rewrite Hm; cbn [fst snd].
  rewrite (@estimate_uncertainty_run pixel_centres cross_options _ n k1
             {| fits.header := small_header; fits.data := cross_image |} []
             _ Hopen eq_refl).
  cbn [center_multiply pixel_centres centre_multiply cross_image mask_image mask_row
         List.concat app np_std sigma_m_np fits.header fits.data].
  unfold cross_image; cbn [mask_image mask_row List.concat app np_std].
  assert (HF : 10 - (18 - 10) / (PI * (1.2 ^ 2 - 0.8 ^ 2)) <> 0)
    by (pose proof cross_flux_positive; lra).
  assert (H20 : 2 <> 0) by lra.
  rewrite (sigma_m_value _ _ _ small_header 0 2
             small_header_ERRCALF small_header_CALFCTR HF H20).
  do 2 eexists; reflexivity.
Qed.

(** C10, as stated, fails: in binary64 the division does not give the
    relative uncertainty back exactly.  With a flat annulus, ERRCALF 0 and a
    flux of 3 Jy the quotient of the absolute uncertainty by the flux differs
    from [sigma_m] in the last place. *)
Lemma absolute_uncertainty64_not_exact :
  PrimFloat.eqb
    (PrimFloat.div (absolute_uncertainty64 (sigma_m64 12 0 3 0 1) 3) 3)
    (sigma_m64 12 0 3 0 1)
  = false.
Proof. vm_compute; reflexivity. Qed.


(** C10, amended. In every run that ends, the absolute uncertainty reported
    is the relative uncertainty times the background-subtracted flux.  Where
    the relative uncertainty is a number the flux is a number other than
    zero and, in real arithmetic, dividing the absolute uncertainty by the
    flux gives the relative uncertainty back; a negative flux makes the
    absolute uncertainty negative. *)
Theorem absolute_uncertainty_spec `{Photutils} (o : Options) (k k' : Kernel)
    (rep : Report) :
  photometry o k = (k', Ok rep) ->
  absolute rep = np_mul (relative rep) (final_flux rep)
  /\ (forall s,
        relative rep = Fin s ->
        exists flux,
          final_flux rep = Fin flux
          /\ flux <> 0
          /\ absolute rep = Fin (s * flux)
          /\ s * flux / flux = s
          /\ (flux < 0 -> s * flux < 0)).
Proof.
  intros Hrun.
  apply photometry_Ok in Hrun as (Habs & _ & std & hdr & Hs).
  split.
  - rewrite Habs; destruct (final_flux rep), (relative rep); reflexivity.
  - intros s Hrel; rewrite Hrel in Hs, Habs.
    destruct (final_flux rep) as [flux |]; cbn [sigma_m_np] in Hs.
    + apply sigma_m_finite in Hs as [HF Hfloor].
      exists flux; split; [reflexivity | split; [exact HF | split; [exact Habs |]]].
      split; [field; exact HF | intros Hneg; nra].
    + elim (sigma_m_nan _ _ _ _ Hs).
Qed.

Lemma absolute_uncertainty_spec_witness :
  exists k' rep,
    @photometry pixel_centres cross_options cross_kernel = (k', Ok rep)
    /\ absolute rep = np_mul (relative rep) (final_flux rep).
Proof.
  destruct cross_run as (k' & s & Hrun).
  do 2 eexists; split; [exact Hrun |].
  exact (proj1 (@absolute_uncertainty_spec pixel_centres cross_options cross_kernel
                  k' _ Hrun)).
Defined.
(** ** More on the relative uncertainty *)

(** X12. The exceptions of [sigma_m], in the order Python meets them: a
    header without ERRCALF is a [KeyError] for it, whatever else is wrong;
    with ERRCALF but without CALFCTR the [KeyError] is for CALFCTR; with both
    cards, one of them a string, it is a [TypeError], even when CALFCTR is
    zero.  A zero flux or a non-finite standard deviation changes none of
    this. *)
Theorem sigma_m_exceptions (r : R) (std : float64) (F0 : R) (hdr : Header) :
  ((forall v, ~ In ("ERRCALF", v) hdr) ->
   sigma_m r std F0 hdr = Raise (KeyError "ERRCALF"))
  /\ (forall e, getitem hdr "ERRCALF" = Ok e ->
                (forall v, ~ In ("CALFCTR", v) hdr) ->
                sigma_m r std F0 hdr = Raise (KeyError "CALFCTR"))
  /\ (forall e c, getitem hdr "ERRCALF" = Ok e -> getitem hdr "CALFCTR" = Ok c ->
                  number e = None \/ number c = None ->
                  sigma_m r std F0 hdr = Raise TypeError).
Proof.
  unfold sigma_m; split; [| split].
  - intros Hno; rewrite (getitem_missing _ _ Hno); reflexivity.
  - intros e He Hno; rewrite He, (getitem_missing _ _ Hno); reflexivity.
  - intros e c He Hc Hnum; rewrite He, Hc; cbn [rbind]; unfold py_truediv.
    destruct Hnum as [Hn | Hn]; rewrite Hn; [reflexivity |].
    destruct (number e); reflexivity.
Qed.

Lemma sigma_m_exceptions_witness :
  (forall v, ~ In ("ERRCALF", v) [("SIMPLE", HBool true); ("NAXIS", HInt 2)])
  /\ sigma_m 12 (Fin 1) 50 [("SIMPLE", HBool true); ("NAXIS", HInt 2)]
     = Raise (KeyError "ERRCALF").
Proof.
  assert (Hno : forall v, ~ In ("ERRCALF", v) [("SIMPLE", HBool true); ("NAXIS", HInt 2)])
    by (apply bare_header_no_card; discriminate).
  split; [exact Hno |].
  exact (proj1 (sigma_m_exceptions 12 (Fin 1) 50 _) Hno).
Defined.

(** X13. Only the first card under each keyword counts: once a header has
    its ERRCALF and CALFCTR cards, cards that follow, repeats of the two
    keywords among them, do not change [sigma_m]. *)
Theorem sigma_m_first_cards (r : R) (std : float64) (F0 : R) (hdr more : Header)
    (e c : hval) :
  getitem hdr "ERRCALF" = Ok e ->
  getitem hdr "CALFCTR" = Ok c ->
  sigma_m r std F0 (hdr ++ more)%list = sigma_m r std F0 hdr.
Proof.
  intros He Hc; unfold sigma_m.
  rewrite (getitem_app hdr more _ e He), (getitem_app hdr more _ c Hc), He, Hc.
  reflexivity.
Qed.

Lemma sigma_m_first_cards_witness :
  sigma_m 12 (Fin 1) 50 (small_header ++ [("CALFCTR", HFloat 0)])%list
  = sigma_m 12 (Fin 1) 50 small_header.
Proof.
  exact (sigma_m_first_cards 12 (Fin 1) 50 small_header [("CALFCTR", HFloat 0)]
           (HFloat 0) (HFloat 2) eq_refl eq_refl).
Defined.






Lemma sigma_m_zero_flux (r : R) (std : float64) (hdr : Header) (ERRCALF CALFCTR : R) :
  has_number hdr "ERRCALF" ERRCALF ->
  has_number hdr "CALFCTR" CALFCTR ->
  CALFCTR <> 0 ->
  sigma_m r std 0 hdr = Ok NonFin.
Proof.
  intros (e & He & Hne) (c & Hc & Hnc) HC0.
  unfold sigma_m; rewrite He, Hc; cbn [rbind].
  rewrite (py_truediv_number e c ERRCALF CALFCTR Hne Hnc HC0); cbn [rbind].
  rewrite np_div_zero; reflexivity.
Qed.

(** X18. A measured flux of zero does not stop the notebook: with the
    calibration cards in the header, CALFCTR not zero, the run ends normally
    and reports a relative and an absolute uncertainty that are not finite
    numbers. *)
Theorem photometry_zero_flux `{Photutils} (o : Options) (k k1 : Kernel)
    (h : fits.HDU) (rest : fits.HDUList) (n : circular_annulus) (std : float64)
    (ERRCALF CALFCTR : R) :
  opened k = Some (h :: rest) ->
  measure_flux o k = (k1, Ok (Fin 0, n)) ->
  annulus_std h.(fits.data) n = Ok std ->
  has_number h.(fits.header) "ERRCALF" ERRCALF ->
  has_number h.(fits.header) "CALFCTR" CALFCTR ->
  CALFCTR <> 0 ->
  exists k',
    photometry o k
    = (k', Ok {| final_flux := Fin 0; relative := NonFin; absolute := NonFin |}).
Proof.
  intros Hopen Hm Hstd HE HC HC0.
  assert (Hopen1 : opened k1 = Some (h :: rest)).
  { pose proof (@keeps_measure_flux _ opened (fun _ _ => eq_refl) _ o k) as Hk.
    rewrite Hm in Hk; cbn [fst] in Hk; rewrite Hk; exact Hopen. }
  unfold photometry, bind; rewrite Hm; cbn [fst snd].
  rewrite (estimate_uncertainty_run o (Fin 0) n k1 h rest std Hopen1 Hstd).
  cbn [sigma_m_np].
  rewrite (sigma_m_zero_flux _ _ _ ERRCALF CALFCTR HE HC HC0).
  eexists; reflexivity.
Qed.

Lemma dark_flux (w1 w2 w3 : nat -> nat -> R) (d : R) :
  total w1 [[0]] - (total w3 [[0]] - total w2 [[0]]) / d = 0.
Proof.
  unfold total, pixel_value, Rsum;
    cbn [List.length seq map fold_right nth]; unfold Rdiv; ring.
Qed.

Lemma dark_meets (r : R) : 0 < r -> meets (0, 0) r [[0]].
Proof.
  intros Hr; unfold meets; cbn [fst snd List.length INR]; lra.
Qed.

Lemma photometry_zero_flux_witness :
  exists k',
    @photometry pixel_centres small_options dark_kernel
    = (k', Ok {| final_flux := Fin 0; relative := NonFin; absolute := NonFin |}).
Proof.
  assert (H1 : 0 < 1) by lra.
  assert (H3 : 0 < 3) by lra.
  assert (H23 : 0 < 2 < 3) by lra.
  assert (H2 : 2 <> 0) by lra.
  destruct (@measure_flux_value pixel_centres small_options dark_kernel
              {| fits.header := small_header; fits.data := [[0]] |} []
              eq_refl H1 H23 (dark_meets 1 H1) (dark_meets 3 H3)) as (k1 & n & Hm).
  cbn [small_options pos_pix r_ap background_aperture_inner_radius
         background_aperture_outter_radius fits.data] in Hm.
  rewrite dark_flux in Hm.
  exact (@photometry_zero_flux pixel_centres small_options dark_kernel k1
           {| fits.header := small_header; fits.data := [[0]] |} [] n _ 0 2
           eq_refl Hm eq_refl small_header_ERRCALF small_header_CALFCTR H2).
Defined.

(** ** The velocity shift *)

Import velocity.

(** C4, as stated, fails: the notebook's [v_corrected] takes no wind term.
    With a systemic velocity of 15 km/s, a heliocentric correction of
    -12 km/s and a wind of 10 km/s it is 27 km/s, not 37 km/s. *)
Lemma v_corrected_leaves_wind_out :
  value (v_corrected {| value := 15; unit := km_s |} {| value := -12000; unit := m_s |})
  <> spec_expected_shift 15 (-12) 10.
Proof.
  unfold v_corrected, vgeo, sub, to, spec_expected_shift; cbn [value unit scale].
  lra.
Qed.

(** C4, amended. The notebook computes, in km/s, the systemic velocity less
    the heliocentric correction, from these two inputs alone.  The wind or
    expansion velocity is not in the computation: the shift that includes it
    is [v_corrected] plus the wind, which the notebook leaves to the reader. *)
Theorem v_corrected_spec (v_sys radial_velocity_correction : Quantity) :
  unit v_sys = km_s ->
  unit (v_corrected v_sys radial_velocity_correction) = km_s
  /\ value (v_corrected v_sys radial_velocity_correction)
     = value v_sys - value (to radial_velocity_correction km_s)
  /\ forall wind,
       spec_expected_shift (value v_sys) (value (to radial_velocity_correction km_s)) wind
       = value (v_corrected v_sys radial_velocity_correction) + wind.
Proof.
  intros Hu.
  assert (Hv : value (v_corrected v_sys radial_velocity_correction)
               = value v_sys - value (to radial_velocity_correction km_s)).
  { unfold v_corrected, vgeo, sub, to; rewrite Hu; cbn [value unit scale]; lra. }
  split; [exact Hu | split; [exact Hv |]].
  intros wind; unfold spec_expected_shift; rewrite Hv; reflexivity.
Qed.

Lemma v_corrected_spec_witness :
  value (v_corrected {| value := 15; unit := km_s |} {| value := -12000; unit := m_s |})
  = 15 - value (to {| value := -12000; unit := m_s |} km_s).
Proof.
  exact (proj1 (proj2 (v_corrected_spec {| value := 15; unit := km_s |}
                         {| value := -12000; unit := m_s |} eq_refl))).
Defined.
